(** * The platform-support console: a shallow embedding of its front end

    The development follows the TypeScript sources of the console
    ([frontend/lib], [frontend/components], [frontend/app]):

    - [JS], [URI], [Num], [JSArray]: the ECMAScript operations the
      components call (strings, [encodeURIComponent], [Math.round],
      [Array.prototype.sort]);
    - [Chat], [ChatInterface]: the markdown code renderer, the simulated
      execution popup and the query submission of [ChatInterface.tsx];
    - [Incident] and the other records of [lib/types/incident.ts],
      [Http] and [IncidentService]: the data model, promises and
      [fetch], and the wrappers of [lib/services/incidentService.ts];
    - [Health], [Rates], [RecentActivity], [IncidentDetails],
      [QuickActions]: the pages and dashboard components;
    - [Backend]: the incident store behind the HTTP routes, which is not
      part of the front-end sources and is modelled from the
      specification.

    The properties follow the definitions, one section per component. *)

From Stdlib Require Import Floats Ascii String.
From stdpp Require Import base numbers option list sorting strings gmap pretty.

Set Warnings "-register-all".

Open Scope Z_scope.
Open Scope list_scope.

(* ================================================================== *)
(** ** ECMAScript strings *)
(* ================================================================== *)

Module JS.

(** A JavaScript string is a sequence of UTF-16 code units. *)
Definition jsstring := list N.

(** An ASCII literal of the source, as code units. *)
Definition lit (s : string) : jsstring :=
  (λ a, N_of_ascii a) <$> list_ascii_of_string s.

Definition code_unit_eqb (a b : N) : bool := (a =? b)%N.

(** [s.startsWith(pat)] *)
Fixpoint startsWith (s pat : jsstring) {struct pat} : bool :=
  match pat, s with
  | [], _ => true
  | p :: pat', c :: s' => code_unit_eqb c p && startsWith s' pat'
  | _ :: _, [] => false
  end.

(** [s.replace(pat, rep)] with a string pattern: the first occurrence of
    [pat] is replaced.  The replacement is taken literally, which is what
    ECMAScript does for a replacement without a dollar sign. *)
Fixpoint replace (s pat rep : jsstring) : jsstring :=
  if startsWith s pat then rep ++ drop (length pat) s
  else match s with
       | [] => []
       | c :: s' => c :: replace s' pat rep
       end.

(** [s.replace(/\n$/, '')]: without the [m] flag the dollar only matches
    at the end of the input, so the one candidate is a final line feed. *)
Fixpoint replace_final_newline (s : jsstring) : jsstring :=
  match s with
  | [] => []
  | [c] => if code_unit_eqb c 10 then [] else [c]
  | c :: s' => c :: replace_final_newline s'
  end.

(** WhiteSpace and LineTerminator code points of ECMA-262, the ones
    [trim] strips. *)
Definition is_white_space (c : N) : bool :=
  ((9 <=? c) && (c <=? 13) || (c =? 32) || (c =? 160) || (c =? 5760)
   || (8192 <=? c) && (c <=? 8202) || (c =? 8232) || (c =? 8233)
   || (c =? 8239) || (c =? 8287) || (c =? 12288) || (c =? 65279))%N.

Fixpoint trimStart (s : jsstring) : jsstring :=
  match s with
  | c :: s' => if is_white_space c then trimStart s' else s
  | [] => []
  end.

Definition trimEnd (s : jsstring) : jsstring :=
  reverse (trimStart (reverse s)).

(** [s.trim()] *)
Definition trim (s : jsstring) : jsstring := trimStart (trimEnd s).

(** JavaScript truthiness of a string: [!s] holds of the empty string only. *)
Definition truthy (s : jsstring) : bool :=
  match s with [] => false | _ => true end.

End JS.

(* ================================================================== *)
(** ** [encodeURIComponent] *)
(* ================================================================== *)

Module URI.
Import JS.

(** The characters [encodeURIComponent] leaves alone: letters, digits
    and the marks [- _ . ! ~ * ' ( )]. *)
Definition unreserved (c : N) : bool :=
  ((65 <=? c) && (c <=? 90) || (97 <=? c) && (c <=? 122)
   || (48 <=? c) && (c <=? 57)
   || (c =? 45) || (c =? 95) || (c =? 46) || (c =? 33) || (c =? 126)
   || (c =? 42) || (c =? 39) || (c =? 40) || (c =? 41))%N.

Definition is_leading_surrogate (c : N) : bool :=
  ((55296 <=? c) && (c <=? 56319))%N.
Definition is_trailing_surrogate (c : N) : bool :=
  ((56320 <=? c) && (c <=? 57343))%N.

(** UTF16SurrogatePairToCodePoint *)
Definition surrogate_pair (lead trail : N) : N :=
  ((lead - 55296) * 1024 + (trail - 56320) + 65536)%N.

(** The UTF-8 octets of a code point. *)
Definition utf8 (cp : N) : list N :=
  if (cp <? 128)%N then [cp]
  else if (cp <? 2048)%N then
    [N.lor 192 (N.shiftr cp 6); N.lor 128 (N.land cp 63)]
  else if (cp <? 65536)%N then
    [N.lor 224 (N.shiftr cp 12);
     N.lor 128 (N.land (N.shiftr cp 6) 63);
     N.lor 128 (N.land cp 63)]
  else
    [N.lor 240 (N.shiftr cp 18);
     N.lor 128 (N.land (N.shiftr cp 12) 63);
     N.lor 128 (N.land (N.shiftr cp 6) 63);
     N.lor 128 (N.land cp 63)].

Definition hex_digit (n : N) : N :=
  if (n <? 10)%N then (48 + n)%N else (55 + n)%N.

(** One octet as a percent sign and two upper-case hexadecimal digits. *)
Definition percent (octet : N) : jsstring :=
  [37%N; hex_digit (N.shiftr octet 4); hex_digit (N.land octet 15)].

Definition escape (cp : N) : jsstring := utf8 cp ≫= percent.

(** [encodeURIComponent(s)]; [None] is the URIError that an unpaired
    surrogate raises. *)
Fixpoint encodeURIComponent (s : jsstring) : option jsstring :=
  match s with
  | [] => Some []
  | c :: rest =>
      if unreserved c then cons c <$> encodeURIComponent rest
      else if is_trailing_surrogate c then None
      else if is_leading_surrogate c then
        match rest with
        | d :: rest' =>
            if is_trailing_surrogate d
            then app (escape (surrogate_pair c d)) <$> encodeURIComponent rest'
            else None
        | [] => None
        end
      else app (escape c) <$> encodeURIComponent rest
  end.

(** Strings in which every surrogate is half of a pair. *)
Fixpoint well_formed (s : jsstring) : bool :=
  match s with
  | [] => true
  | c :: rest =>
      if is_trailing_surrogate c then false
      else if is_leading_surrogate c then
        match rest with
        | d :: rest' => is_trailing_surrogate d && well_formed rest'
        | [] => false
        end
      else well_formed rest
  end.

End URI.

(* ================================================================== *)
(** ** The chat: code blocks and the execution popup *)
(* ================================================================== *)

Module Chat.
Import JS.

(** *** [markdownComponents.code] *)

(** What the renderer of a code element puts on the page: the text given
    to the syntax highlighter, and the Run button when there is one, with
    the argument its click handler passes to [handleExecuteCommand].  The
    language class only picks the highlighter's grammar and is left out. *)
Record CodeElement := {
  highlighted : jsstring;
  run_button : option jsstring
}.

Definition command_prefix : jsstring := lit "command:".

(** [children] stands for [String(children)]. *)
Definition code (children : jsstring) : CodeElement :=
  let codeContent := replace_final_newline children in
  let isCommand := startsWith codeContent command_prefix in
  let commandContent :=
    if isCommand then trim (replace codeContent command_prefix [])
    else codeContent in
  {| highlighted := commandContent;
     run_button := if isCommand then Some commandContent else None |}.

(** *** [ExecutionPopup] *)

Inductive ExecStatus := executing | completed.

(** The popup's two state cells, its [command] prop, and the timer its
    effect has pending (milliseconds left), if any. *)
Record ExecutionPopup := {
  command : jsstring;
  status : ExecStatus;
  splunkLink : jsstring;
  timer : option nat
}.

Definition link_head : jsstring :=
  lit "https://splunk.example.com/search?q=search%20command%3D".
Definition link_tail : jsstring := lit "&earliest=-1h&latest=now".

(** First render and the effect: [setTimeout(..., 2000)]. *)
Definition mount (cmd : jsstring) : ExecutionPopup :=
  {| command := cmd; status := executing; splunkLink := [];
     timer := Some 2000%nat |}.

(** The timer's callback.  [setStatus('completed')] has run when the
    template literal is evaluated, so a URIError from
    [encodeURIComponent] leaves the link as it was. *)
Definition timeout_callback (p : ExecutionPopup) : ExecutionPopup :=
  match URI.encodeURIComponent (command p) with
  | Some q =>
      {| command := command p; status := completed;
         splunkLink := link_head ++ q ++ link_tail; timer := None |}
  | None =>
      {| command := command p; status := completed;
         splunkLink := splunkLink p; timer := None |}
  end.

(** [ms] milliseconds pass while the popup stays mounted. *)
Definition elapse (ms : nat) (p : ExecutionPopup) : ExecutionPopup :=
  match timer p with
  | Some due =>
      if (due <=? ms)%nat then timeout_callback p
      else {| command := command p; status := status p;
              splunkLink := splunkLink p; timer := Some (due - ms)%nat |}
  | None => p
  end.

(** A render with another [command] prop: the effect's cleanup clears
    the pending timer and the effect sets a new one. *)
Definition set_command (cmd : jsstring) (p : ExecutionPopup) : ExecutionPopup :=
  if decide (cmd = command p) then p
  else {| command := cmd; status := status p; splunkLink := splunkLink p;
          timer := Some 2000%nat |}.

(** What the popup shows under the command. *)
Inductive PopupBody :=
  | Executing
  | ExecutedSuccessfully (logs_href : jsstring).

Definition render (p : ExecutionPopup) : PopupBody :=
  match status p with
  | executing => Executing
  | completed => ExecutedSuccessfully (splunkLink p)
  end.

End Chat.

(* ================================================================== *)
(** ** Data model: [lib/types/incident.ts] *)
(* ================================================================== *)

(** Values of type [any]: what [JSON.parse] can produce. *)
Module Json.
Import JS.

Inductive value :=
  | Null
  | Bool (b : bool)
  | Number (x : float)
  | String (s : jsstring)
  | Array (items : list value)
  | Object (members : list (jsstring * value)).

(** A property read [v.key] on the members of an object, each key
    occurring once: [None] is [undefined].  Reading a property of [null]
    is the one case that throws and is handled by the caller. *)
Fixpoint member (key : jsstring) (members : list (jsstring * value)) : option value :=
  match members with
  | [] => None
  | (k, v) :: rest => if decide (k = key) then Some v else member key rest
  end.

End Json.

Inductive Severity := low | medium | high | critical.
Inductive Status := open | analyzing | in_progress | resolved.
Inductive HealthStatus := healthy | degraded | unhealthy.
Inductive ActionType := diagnostic | remediation.

#[global] Instance Severity_eq_dec : EqDecision Severity.
Proof. solve_decision. Defined.
#[global] Instance Status_eq_dec : EqDecision Status.
Proof. solve_decision. Defined.
#[global] Instance HealthStatus_eq_dec : EqDecision HealthStatus.
Proof. solve_decision. Defined.

Module Incident.
Record t := {
  id : JS.jsstring;
  title : JS.jsstring;
  description : JS.jsstring;
  component : JS.jsstring;
  severity : Severity;
  affected_service : JS.jsstring;
  status : Status;
  created_at : JS.jsstring;
  updated_at : JS.jsstring
}.

(** [{ ...incident, status: s }] *)
Definition with_status (s : Status) (i : t) : t :=
  {| id := id i; title := title i; description := description i;
     component := component i; severity := severity i;
     affected_service := affected_service i; status := s;
     created_at := created_at i; updated_at := updated_at i |}.
End Incident.

(** [Omit<Incident, 'id'>] *)
Module IncidentFields.
Record t := {
  title : JS.jsstring;
  description : JS.jsstring;
  component : JS.jsstring;
  severity : Severity;
  affected_service : JS.jsstring;
  status : Status;
  created_at : JS.jsstring;
  updated_at : JS.jsstring
}.
End IncidentFields.

Definition Params := list (JS.jsstring * Json.value).

Module IncidentAction.
Record t := {
  id : JS.jsstring;
  type : ActionType;
  title : JS.jsstring;
  description : JS.jsstring;
  params : option Params
}.
End IncidentAction.

Module Metric.
Record t := {
  name : JS.jsstring;
  value : float;
  unit : JS.jsstring;
  threshold : option float
}.
End Metric.

Module HealthCheckResult.
Record t := {
  status : HealthStatus;
  metrics : list Metric.t;
  message : JS.jsstring
}.
End HealthCheckResult.

Module Analysis.
Record t := {
  analysis : JS.jsstring;
  recommended_actions : list IncidentAction.t
}.
End Analysis.

Module ActionResult.
Record t := {
  success : bool;
  message : JS.jsstring
}.
End ActionResult.

(* ================================================================== *)
(** ** Promises, [fetch] and asynchronous functions *)
(* ================================================================== *)

Module Http.
Import JS.

Inductive Exn :=
  | Error (message : jsstring)
  | TypeError
  | SyntaxError.

(** A settled promise. *)
Inductive Promise (A : Type) :=
  | Resolved (a : A)
  | Rejected (e : Exn).
Arguments Resolved {A} a.
Arguments Rejected {A} e.

(** An [async] function body over a state [Σ] that survives a throw: the
    server's state for the service wrappers, paired with a component's
    React state for the event handlers. *)
Definition Async (Σ A : Type) : Type := Σ → Promise A * Σ.

Definition ret {Σ A} (a : A) : Async Σ A := λ σ, (Resolved a, σ).
Definition throw {Σ A} (e : Exn) : Async Σ A := λ σ, (Rejected e, σ).
Definition await {Σ A} (p : Promise A) : Async Σ A := λ σ, (p, σ).

Definition bind {Σ A B} (m : Async Σ A) (k : A → Async Σ B) : Async Σ B :=
  λ σ, match m σ with
       | (Resolved a, σ') => k a σ'
       | (Rejected e, σ') => (Rejected e, σ')
       end.

(** [try { body } catch (error) { handler }] *)
Definition try_catch {Σ A} (body : Async Σ A) (handler : Exn → Async Σ A) : Async Σ A :=
  λ σ, match body σ with
       | (Resolved a, σ') => (Resolved a, σ')
       | (Rejected e, σ') => handler e σ'
       end.

(** [try { body } finally { final }], for a [final] that does not throw
    or return. *)
Definition try_finally {Σ A} (body : Async Σ A) (final : Σ → Σ) : Async Σ A :=
  λ σ, let '(r, σ') := body σ in (r, final σ').

(** A state update of the component running the handler. *)
Definition update {S W} (f : S → S) : Async (S * W) unit :=
  λ '(s, w), (Resolved tt, (f s, w)).

(** The component's state as the handler's closure sees it. *)
Definition state {S W} : Async (S * W) S :=
  λ '(s, w), (Resolved s, (s, w)).

(** A call from a handler into a function that only talks to the server. *)
Definition call {S W A} (m : Async W A) : Async (S * W) A :=
  λ '(s, w), let '(r, w') := m w in (r, (s, w')).

Inductive Method := GET | POST.

(** The paths of the API; [url] gives the string the source builds. *)
Inductive Route :=
  | incidents
  | analyze (incidentId : jsstring)
  | execute_action (incidentId : jsstring)
  | health_check (incidentId : jsstring)
  | close (incidentId : jsstring)
  | query.

Definition API_BASE_URL : jsstring := lit "http://localhost:8000".

Definition url (r : Route) : jsstring :=
  match r with
  | incidents => API_BASE_URL ++ lit "/incidents/"
  | analyze i => API_BASE_URL ++ lit "/incidents/" ++ i ++ lit "/analyze"
  | execute_action i => API_BASE_URL ++ lit "/incidents/" ++ i ++ lit "/execute-action"
  | health_check i => API_BASE_URL ++ lit "/incidents/" ++ i ++ lit "/health-check"
  | close i => API_BASE_URL ++ lit "/incidents/" ++ i ++ lit "/close"
  | query => lit "http://127.0.0.1:8000/query"
  end.

(** The argument of [JSON.stringify] in a request. *)
Inductive Body :=
  | no_body
  | incident_body (incident : IncidentFields.t)
  | action_body (action_id : jsstring) (params : Params)
  | query_body (query : jsstring).

Record Request := {
  route : Route;
  method : Method;
  content_type_json : bool;
  body : Body
}.

Record Response (A : Type) := {
  status : nat;
  json : Promise A
}.
Arguments status {A} r.
Arguments json {A} r.

(** [response.ok] *)
Definition ok {A} (r : Response A) : bool :=
  (200 <=? status r)%nat && (status r <=? 299)%nat.

(** [fetch] as the callers type it: [response.json()] is an unchecked
    [any], so each caller reads the body at the type its signature
    promises.  A rejected [fetch] is a network failure. *)
Record Fetch (W : Type) := {
  fetch_Incident : Request → Async W (Response Incident.t);
  fetch_Incidents : Request → Async W (Response (list Incident.t));
  fetch_Analysis : Request → Async W (Response Analysis.t);
  fetch_ActionResult : Request → Async W (Response ActionResult.t);
  fetch_HealthCheckResult : Request → Async W (Response HealthCheckResult.t);
  fetch_any : Request → Async W (Response Json.value)
}.
Arguments fetch_Incident {W} f.
Arguments fetch_Incidents {W} f.
Arguments fetch_Analysis {W} f.
Arguments fetch_ActionResult {W} f.
Arguments fetch_HealthCheckResult {W} f.
Arguments fetch_any {W} f.

End Http.

Notation "x <- m ;; k" := (Http.bind m (λ x, k))
  (at level 100, m at next level, right associativity, only parsing).
Notation "m ;;; k" := (Http.bind m (λ _, k))
  (at level 100, right associativity, only parsing).

(* ================================================================== *)
(** ** [IncidentService] *)
(* ================================================================== *)

Module IncidentService.
Import JS Http.

Section Service.
Context {W : Type} (net : Fetch W).

Definition createIncident (incident : IncidentFields.t) : Async W Incident.t :=
  response <- fetch_Incident net
    {| route := incidents; method := POST; content_type_json := true;
       body := incident_body incident |} ;;
  if negb (ok response) then throw (Error (lit "Failed to create incident"))
  else await (json response).

Definition getIncidents : Async W (list Incident.t) :=
  response <- fetch_Incidents net
    {| route := incidents; method := GET; content_type_json := false;
       body := no_body |} ;;
  if negb (ok response) then throw (Error (lit "Failed to fetch incidents"))
  else await (json response).

Definition analyzeIncident (incidentId : jsstring) : Async W Analysis.t :=
  response <- fetch_Analysis net
    {| route := analyze incidentId; method := POST;
       content_type_json := false; body := no_body |} ;;
  if negb (ok response) then throw (Error (lit "Failed to analyze incident"))
  else await (json response).

Definition executeAction (incidentId actionId : jsstring) (params : Params)
  : Async W ActionResult.t :=
  response <- fetch_ActionResult net
    {| route := execute_action incidentId; method := POST;
       content_type_json := true; body := action_body actionId params |} ;;
  if negb (ok response) then throw (Error (lit "Failed to execute action"))
  else await (json response).

Definition getHealthCheck (incidentId : jsstring) : Async W HealthCheckResult.t :=
  response <- fetch_HealthCheckResult net
    {| route := health_check incidentId; method := POST;
       content_type_json := false; body := no_body |} ;;
  if negb (ok response) then throw (Error (lit "Failed to get health check"))
  else await (json response).

Definition closeIncident (incidentId : jsstring) : Async W Incident.t :=
  response <- fetch_Incident net
    {| route := close incidentId; method := POST;
       content_type_json := false; body := no_body |} ;;
  if negb (ok response) then throw (Error (lit "Failed to close incident"))
  else await (json response).

End Service.
End IncidentService.

(* ================================================================== *)
(** ** Numbers and arrays *)
(* ================================================================== *)

Module Num.

(** An array length as a Number (exact below 2^53). *)
Definition of_nat (n : nat) : float :=
  PrimFloat.of_uint63 (Uint63.of_Z (Z.of_nat n)).

Definition of_Z (n : Z) : float :=
  if (n <? 0) then PrimFloat.opp (PrimFloat.of_uint63 (Uint63.of_Z (- n)))
  else PrimFloat.of_uint63 (Uint63.of_Z n).

Definition isNaN (x : float) : bool := negb (PrimFloat.eqb x x).

(** [Math.round(x)]: the integer nearest to [x], a tie going up.  A
    finite binary64 is [± m * 2^e]; with [e < 0] its magnitude is below
    2^53 and the floor of [x + 1/2] is computed exactly over [Z]. *)
Definition Math_round (x : float) : float :=
  match Prim2SF x with
  | S754_finite s m e =>
      if (0 <=? e) then x
      else
        let sm := if s then Z.neg m else Z.pos m in
        let n := (2 * sm + 2 ^ (- e)) / 2 ^ (1 - e) in
        if (n =? 0) then (if s then PrimFloat.opp PrimFloat.zero else PrimFloat.zero)
        else of_Z n
  | _ => x
  end.

End Num.

Module JSArray.

Section Sort.
Context {A : Type}.

(** The comparator's result is a Number; [None] is NaN, which
    [Array.prototype.sort] reads as [+0]. *)
Variable compareFn : A → A → option Z.

Definition sort_order (a b : A) : Z :=
  match compareFn a b with Some v => v | None => 0 end.

(** [x] goes in front of the first element it does not have to follow. *)
Fixpoint insert_sorted (x : A) (l : list A) : list A :=
  match l with
  | [] => [x]
  | y :: l' =>
      if (sort_order x y <=? 0) then x :: y :: l'
      else y :: insert_sorted x l'
  end.

(** [l.sort(compareFn)].  The sort is stable, and for a comparator that
    orders the elements consistently every stable sort returns this
    list; for other comparators ECMA-262 leaves the order to the
    implementation. *)
Fixpoint sort (l : list A) : list A :=
  match l with
  | [] => []
  | x :: l' => insert_sorted x (sort l')
  end.

End Sort.
End JSArray.

(* ================================================================== *)
(** ** System Health page: [app/health/page.tsx] *)
(* ================================================================== *)

Module Health.
Import JS Http.

Record ComponentHealth := {
  status : HealthStatus;
  incidents : nat;
  lastIncident : jsstring
}.

Record Metrics := {
  componentHealth : gmap jsstring ComponentHealth;
  totalIncidents : nat;
  activeIncidents : nat;
  criticalIncidents : nat
}.

Definition initial : Metrics :=
  {| componentHealth := ∅; totalIncidents := 0; activeIncidents := 0;
     criticalIncidents := 0 |}.

(** *** [Object.prototype]

    [componentHealth] is an object literal, so [componentHealth[name]]
    finds what [Object.prototype] holds when the object has no entry of
    its own under [name]. *)

(** The properties the callback below can put on [Object.prototype];
    [None] is a property that is not there.  [incidents] can only get
    there as NaN. *)
Record Prototype := {
  proto_status : option HealthStatus;
  proto_incidents_NaN : bool;
  proto_lastIncident : option jsstring
}.

(** [Object.prototype] as the engine makes it. *)
Definition pristine : Prototype :=
  {| proto_status := None; proto_incidents_NaN := false;
     proto_lastIncident := None |}.

(** The function-valued properties of [Object.prototype] (ECMA-262
    20.1.3 and B.2.2). *)
Definition builtin_functions : list jsstring :=
  [lit "constructor"; lit "hasOwnProperty"; lit "isPrototypeOf";
   lit "propertyIsEnumerable"; lit "toLocaleString"; lit "toString";
   lit "valueOf"; lit "__defineGetter__"; lit "__defineSetter__";
   lit "__lookupGetter__"; lit "__lookupSetter__"].

(** What a lookup gets from [Object.prototype]. *)
Inductive Inherited :=
  | falsy             (* undefined, NaN or the empty string *)
  | builtin_function  (* a function object *)
  | object_prototype  (* [Object.prototype] itself, from the [__proto__] getter *)
  | text.             (* a string that is not empty *)

Definition inherited (p : Prototype) (name : jsstring) : Inherited :=
  if bool_decide (name ∈ builtin_functions) then builtin_function
  else if bool_decide (name = lit "__proto__") then object_prototype
  else if bool_decide (name = lit "status") then
    match proto_status p with Some _ => text | None => falsy end
  else if bool_decide (name = lit "lastIncident") then
    match proto_lastIncident p with
    | Some last => if truthy last then text else falsy
    | None => falsy
    end
  else falsy.  (* [incidents] is NaN when it is there *)

Section Page.
Context {W : Type} (net : Fetch W).

(** [new Date(s).getTime()] of the engine; [None] is NaN. *)
Variable getTime : jsstring → option Z.

(** [new Date(a) > new Date(b)] *)
Definition Date_gt (a b : jsstring) : bool :=
  match getTime a, getTime b with
  | Some x, Some y => (y <? x)
  | _, _ => false
  end.

(** The three statements of the [forEach] callback on an entry of the
    object: the count, the date of the last incident and the status. *)
Definition touch (entry : ComponentHealth) (incident : Incident.t)
  : ComponentHealth :=
  let lastIncident' :=
    if negb (truthy (lastIncident entry))
       || Date_gt (Incident.created_at incident) (lastIncident entry)
    then Incident.created_at incident
    else lastIncident entry in
  let status' :=
    if decide (Incident.status incident ≠ resolved) then
      if decide (Incident.severity incident = critical) then unhealthy
      else if decide (Incident.severity incident = high) then degraded
      else status entry
    else status entry in
  {| status := status'; incidents := S (incidents entry);
     lastIncident := lastIncident' |}.

(** The callback where [componentHealth[incident.component]] is an entry
    of the object's own, made on the spot when the lookup gave a falsy
    value. *)
Definition upsert (componentHealth : gmap jsstring ComponentHealth)
    (incident : Incident.t) : gmap jsstring ComponentHealth :=
  let entry :=
    match componentHealth !! Incident.component incident with
    | Some h => h
    | None => {| status := healthy; incidents := 0; lastIncident := [] |}
    end in
  <[ Incident.component incident := touch entry incident ]> componentHealth.

(** The same three statements when the lookup gave [Object.prototype]
    itself: the properties land on the prototype.  [undefined++] leaves
    NaN, and [!undefined] holds. *)
Definition pollute (p : Prototype) (incident : Incident.t) : Prototype :=
  let lastIncident' :=
    match proto_lastIncident p with
    | Some last =>
        if negb (truthy last) || Date_gt (Incident.created_at incident) last
        then Incident.created_at incident
        else last
    | None => Incident.created_at incident
    end in
  let status' :=
    if decide (Incident.status incident ≠ resolved) then
      if decide (Incident.severity incident = critical) then Some unhealthy
      else if decide (Incident.severity incident = high) then Some degraded
      else proto_status p
    else proto_status p in
  {| proto_status := status'; proto_incidents_NaN := true;
     proto_lastIncident := Some lastIncident' |}.

(** The body of the [forEach] callback.  The map holds the own entries
    of [componentHealth], an object literal, so a lookup that finds no
    own entry goes on to [Object.prototype]: a built-in function takes
    the three writes and no row is made; [Object.prototype] takes them
    as properties every object then inherits; and on a string the first
    write, [incidents++], throws, the module being strict code. *)
Definition visit (componentHealth : gmap jsstring ComponentHealth)
    (incident : Incident.t)
  : Async Prototype (gmap jsstring ComponentHealth) :=
  λ p,
  match componentHealth !! Incident.component incident with
  | Some _ => (Resolved (upsert componentHealth incident), p)
  | None =>
      match inherited p (Incident.component incident) with
      | falsy => (Resolved (upsert componentHealth incident), p)
      | builtin_function => (Resolved componentHealth, p)
      | object_prototype => (Resolved componentHealth, pollute p incident)
      | text => (Rejected TypeError, p)
      end
  end.

(** [incidents.forEach(incident => ...)] over the object built so far. *)
Fixpoint forEach (incidents : list Incident.t)
    (componentHealth : gmap jsstring ComponentHealth)
  : Async Prototype (gmap jsstring ComponentHealth) :=
  match incidents with
  | [] => ret componentHealth
  | incident :: rest =>
      componentHealth' <- visit componentHealth incident ;;
      forEach rest componentHealth'
  end.

(** The argument of [setMetrics]. *)
Definition compute (componentHealth : gmap jsstring ComponentHealth)
    (incidents : list Incident.t) : Metrics :=
  {| componentHealth := componentHealth;
     totalIncidents := length incidents;
     activeIncidents :=
       length (filter (λ i, Incident.status i ≠ resolved) incidents);
     criticalIncidents :=
       length (filter (λ i, Incident.severity i = critical
                            ∧ Incident.status i ≠ resolved) incidents) |}.

(** A step of the handler that works on the realm's [Object.prototype];
    what it has put there stays when it throws. *)
Definition in_realm {A} (m : Async Prototype A)
  : Async ((Metrics * Prototype) * W) A :=
  λ '((s, p), w), let '(r, p') := m p in (r, ((s, p'), w)).

Definition setMetrics (m : Metrics) : Metrics * Prototype → Metrics * Prototype :=
  λ '(_, p), (m, p).

(** The page's state is its [metrics] cell together with the realm's
    [Object.prototype]. *)
Definition fetchMetrics : Async ((Metrics * Prototype) * W) unit :=
  try_catch
    (incidents <- call (IncidentService.getIncidents net) ;;
     componentHealth <- in_realm (forEach incidents ∅) ;;
     update (setMetrics (compute componentHealth incidents)))
    (λ _, ret tt).

End Page.
End Health.

(* ================================================================== *)
(** ** Resolution rates: [app/metrics/page.tsx] and [IncidentOverview] *)
(* ================================================================== *)

Module Rates.
Import Http.

Definition resolved_count (incidents : list Incident.t) : nat :=
  length (filter (λ i, Incident.status i = resolved) incidents).

(** [(resolved / total) * 100] *)
Definition percentage (resolved_n total : nat) : float :=
  (Num.of_nat resolved_n / Num.of_nat total * Num.of_Z 100)%float.

(** Metrics page, Summary Statistics: the number in front of the percent
    sign. *)
Definition Metrics_resolutionRate (incidents : list Incident.t) : float :=
  Num.Math_round (percentage (resolved_count incidents) (length incidents)).

Record OverviewMetrics := {
  activeIncidents : nat;
  systemHealth : Z;
  avgResponseTime : Z;
  resolutionRate : float
}.

(** [IncidentOverview.fetchMetrics], the values it computes from the list. *)
Definition Overview_compute (incidents : list Incident.t) : OverviewMetrics :=
  let activeIncidents := length (filter (λ i, Incident.status i ≠ resolved) incidents) in
  let totalIncidents := length incidents in
  let resolvedIncidents := resolved_count incidents in
  let resolutionRate :=
    if (0 <? totalIncidents)%nat
    then Num.Math_round (percentage resolvedIncidents totalIncidents)
    else Num.of_Z 100 in
  let criticalIncidents :=
    length (filter (λ i, Incident.status i ≠ resolved
                         ∧ (Incident.severity i = critical ∨ Incident.severity i = high))
                   incidents) in
  let systemHealth := Z.max 0 (100 - Z.of_nat criticalIncidents * 10) in
  {| activeIncidents := activeIncidents; systemHealth := systemHealth;
     avgResponseTime := 15; resolutionRate := resolutionRate |}.

Definition Overview_fetchMetrics {W} (net : Fetch W) : Async (OverviewMetrics * W) unit :=
  try_catch
    (incidents <- call (IncidentService.getIncidents net) ;;
     update (λ _, Overview_compute incidents))
    (λ _, ret tt).

End Rates.

(* ================================================================== *)
(** ** Dashboard: [RecentActivity.tsx] *)
(* ================================================================== *)

Module RecentActivity.
Import JS Http.

(** The component's two state cells, with the refresh key of the
    incident context and the alerts it has raised. *)
Record State := {
  incidents : list Incident.t;
  isClosing : gmap jsstring bool;
  refreshKey : nat;
  alerts : list jsstring
}.

Definition initial : State :=
  {| incidents := []; isClosing := ∅; refreshKey := 0; alerts := [] |}.

Definition setIncidents (f : list Incident.t → list Incident.t) (s : State) : State :=
  {| incidents := f (incidents s); isClosing := isClosing s;
     refreshKey := refreshKey s; alerts := alerts s |}.

Definition setIsClosing (incidentId : jsstring) (b : bool) (s : State) : State :=
  {| incidents := incidents s; isClosing := <[incidentId := b]> (isClosing s);
     refreshKey := refreshKey s; alerts := alerts s |}.

(** [refreshIncidents()] of the context provider. *)
Definition refreshIncidents (s : State) : State :=
  {| incidents := incidents s; isClosing := isClosing s;
     refreshKey := S (refreshKey s); alerts := alerts s |}.

Definition alert (message : jsstring) (s : State) : State :=
  {| incidents := incidents s; isClosing := isClosing s;
     refreshKey := refreshKey s; alerts := alerts s ++ [message] |}.

Section Component.
Context {W : Type} (net : Fetch W).

(** [new Date(s).getTime()] of the engine; [None] is NaN. *)
Variable getTime : jsstring → option Z.

(** [(a, b) => new Date(b.created_at).getTime() - new Date(a.created_at).getTime()] *)
Definition newest_first (a b : Incident.t) : option Z :=
  match getTime (Incident.created_at b), getTime (Incident.created_at a) with
  | Some tb, Some ta => Some (tb - ta)
  | _, _ => None
  end.

(** What [fetchIncidents] keeps of the fetched list. *)
Definition recent (data : list Incident.t) : list Incident.t :=
  take 5 (JSArray.sort newest_first data).

Definition fetchIncidents : Async (State * W) unit :=
  try_catch
    (data <- call (IncidentService.getIncidents net) ;;
     update (setIncidents (λ _, recent data)))
    (λ _, ret tt).

Definition mark_resolved (incidentId : jsstring) (prevIncidents : list Incident.t)
  : list Incident.t :=
  (λ incident,
     if decide (Incident.id incident = incidentId)
     then Incident.with_status resolved incident
     else incident) <$> prevIncidents.

Definition handleCloseIncident (incidentId : jsstring) : Async (State * W) unit :=
  update (setIsClosing incidentId true) ;;;
  try_finally
    (try_catch
       (call (IncidentService.closeIncident net incidentId) ;;;
        update (setIncidents (mark_resolved incidentId)) ;;;
        update refreshIncidents)
       (λ _, update (alert (lit "Failed to close incident. Please try again."))))
    (λ '(s, w), (setIsClosing incidentId false s, w)).

End Component.

(** *** [getTimeAgo] *)

(** The Numbers of [getTimeAgo] are integers or NaN ([None]): a
    comparison with NaN is false, and NaN prints as [NaN].  The floors of
    the quotients are exact as long as the difference of the two time
    values is below 2^53. *)
Definition number_lt (x : option Z) (n : Z) : bool :=
  match x with Some v => (v <? n) | None => false end.

Definition number_toString (x : option Z) : jsstring :=
  match x with Some v => lit (pretty v) | None => lit "NaN" end.

(** [n === 1 ? '' : 's'] *)
Definition plural (x : option Z) : jsstring :=
  if decide (x = Some 1) then [] else lit "s".

(** [getTimeAgo(dateString)], with [now] the time value of [new Date()]. *)
Definition getTimeAgo (getTime : jsstring → option Z) (now : Z)
    (dateString : jsstring) : jsstring :=
  let seconds := (λ date, (now - date) `div` 1000) <$> getTime dateString in
  if number_lt seconds 60 then lit "just now"
  else
    let minutes := (λ x, x `div` 60) <$> seconds in
    if number_lt minutes 60
    then number_toString minutes ++ lit " minute" ++ plural minutes ++ lit " ago"
    else
      let hours := (λ x, x `div` 60) <$> minutes in
      if number_lt hours 24
      then number_toString hours ++ lit " hour" ++ plural hours ++ lit " ago"
      else
        let days := (λ x, x `div` 24) <$> hours in
        number_toString days ++ lit " day" ++ plural days ++ lit " ago".

(** The Close button of a row: absent ([None]) or rendered, with its
    [disabled] attribute. *)
Definition close_button (s : State) (incident : Incident.t) : option bool :=
  if decide (Incident.status incident ≠ resolved)
  then Some (default false (isClosing s !! Incident.id incident))
  else None.



End RecentActivity.

(* ================================================================== *)
(** ** Incident details page: [app/incidents/[id]/page.tsx] *)
(* ================================================================== *)

Module IncidentDetails.
Import JS Http.

Inductive ToastType := success | error.

Record Toast := { message : jsstring; type : ToastType }.

Record State := {
  incident : option Incident.t;
  analysis : jsstring;
  actions : list IncidentAction.t;
  isLoading : bool;
  healthStatus : option HealthStatus;
  toast : option Toast
}.

Definition initial : State :=
  {| incident := None; analysis := []; actions := []; isLoading := false;
     healthStatus := None; toast := None |}.

Definition setIncident (i : Incident.t) (s : State) : State :=
  {| incident := Some i; analysis := analysis s; actions := actions s;
     isLoading := isLoading s; healthStatus := healthStatus s; toast := toast s |}.
Definition setAnalysis (a : jsstring) (s : State) : State :=
  {| incident := incident s; analysis := a; actions := actions s;
     isLoading := isLoading s; healthStatus := healthStatus s; toast := toast s |}.
Definition setActions (a : list IncidentAction.t) (s : State) : State :=
  {| incident := incident s; analysis := analysis s; actions := a;
     isLoading := isLoading s; healthStatus := healthStatus s; toast := toast s |}.
Definition setIsLoading (b : bool) (s : State) : State :=
  {| incident := incident s; analysis := analysis s; actions := actions s;
     isLoading := b; healthStatus := healthStatus s; toast := toast s |}.
Definition setHealthStatus (h : HealthStatus) (s : State) : State :=
  {| incident := incident s; analysis := analysis s; actions := actions s;
     isLoading := isLoading s; healthStatus := Some h; toast := toast s |}.
Definition setToast (t : Toast) (s : State) : State :=
  {| incident := incident s; analysis := analysis s; actions := actions s;
     isLoading := isLoading s; healthStatus := healthStatus s; toast := Some t |}.

(** [incidents.find(i => i.id === incidentId)] *)
Definition find_incident (incidentId : jsstring) (incidents : list Incident.t)
  : option Incident.t :=
  find (λ i, bool_decide (Incident.id i = incidentId)) incidents.

Section Page.
Context {W : Type} (net : Fetch W) (incidentId : jsstring).

Definition fetchIncidentDetails : Async (State * W) unit :=
  try_catch
    (incidents <- call (IncidentService.getIncidents net) ;;
     match find_incident incidentId incidents with
     | Some currentIncident =>
         update (setIncident currentIncident) ;;;
         analysisResult <- call (IncidentService.analyzeIncident net incidentId) ;;
         update (setAnalysis (Analysis.analysis analysisResult)) ;;;
         update (setActions (Analysis.recommended_actions analysisResult)) ;;;
         healthCheck <- call (IncidentService.getHealthCheck net incidentId) ;;
         update (setHealthStatus (HealthCheckResult.status healthCheck))
     | None => ret tt
     end)
    (λ _, ret tt).

Definition executeAction (actionId : jsstring) : Async (State * W) unit :=
  update (setIsLoading true) ;;;
  try_finally
    (try_catch
       (result <- call (IncidentService.executeAction net incidentId actionId []) ;;
        if ActionResult.success result then
          incidents <- call (IncidentService.getIncidents net) ;;
          match find_incident incidentId incidents with
          | Some updatedIncident => update (setIncident updatedIncident)
          | None => ret tt
          end ;;;
          healthCheck <- call (IncidentService.getHealthCheck net incidentId) ;;
          update (setHealthStatus (HealthCheckResult.status healthCheck)) ;;;
          update (setToast
            {| message :=
                 if truthy (ActionResult.message result)
                 then ActionResult.message result
                 else lit "Action executed successfully";
               type := success |})
        else ret tt)
       (λ _, update (setToast
          {| message := lit "Failed to execute action. Please try again.";
             type := error |})))
    (λ '(s, w), (setIsLoading false s, w)).

End Page.



End IncidentDetails.

(* ================================================================== *)
(** ** Dashboard: [QuickActions.tsx] *)
(* ================================================================== *)

Module QuickActions.
Import JS Http.

Record State := {
  isCreatingIncident : bool;
  reloaded : bool;
  alerts : list jsstring
}.

Definition initial : State :=
  {| isCreatingIncident := false; reloaded := false; alerts := [] |}.

Definition setIsCreatingIncident (b : bool) (s : State) : State :=
  {| isCreatingIncident := b; reloaded := reloaded s; alerts := alerts s |}.
Definition reload (s : State) : State :=
  {| isCreatingIncident := isCreatingIncident s; reloaded := true;
     alerts := alerts s |}.
Definition alert (message : jsstring) (s : State) : State :=
  {| isCreatingIncident := isCreatingIncident s; reloaded := reloaded s;
     alerts := alerts s ++ [message] |}.

(** The literal the button sends; [now1] and [now2] are the two
    [new Date().toISOString()] readings. *)
Definition demo_incident (now1 now2 : jsstring) : IncidentFields.t :=
  {| IncidentFields.title := lit "API Gateway High CPU Usage";
     IncidentFields.description :=
       lit "API Gateway is experiencing high CPU usage causing increased response times.";
     IncidentFields.component := lit "api-gateway";
     IncidentFields.severity := high;
     IncidentFields.affected_service := lit "customer-portal";
     IncidentFields.status := open;
     IncidentFields.created_at := now1;
     IncidentFields.updated_at := now2 |}.

Definition handleCreateIncident {W} (net : Fetch W) (now1 now2 : jsstring)
  : Async (State * W) unit :=
  update (setIsCreatingIncident true) ;;;
  try_finally
    (try_catch
       (incident <- call (IncidentService.createIncident net (demo_incident now1 now2)) ;;
        call (IncidentService.analyzeIncident net (Incident.id incident)) ;;;
        update reload)
       (λ _, update (alert (lit "Failed to create incident. Please try again."))))
    (λ '(s, w), (setIsCreatingIncident false s, w)).

End QuickActions.

(* ================================================================== *)
(** ** The chat: [ChatInterface] *)
(* ================================================================== *)

Module ChatInterface.
Import JS Http.

Inductive MessageType := user | assistant.

(** A value that may be [undefined]. *)
Definition jsval := option Json.value.

(** A chat message.  [content] and [sources] hold whatever the handler
    stored: the reply's fields are copied from an [any]. *)
Record Message := {
  id : jsstring;
  type : MessageType;
  content : jsval;
  sources : jsval
}.

Record State := {
  messages : list Message;
  input : jsstring;
  isLoading : bool;
  executionPopup : bool * jsstring
}.

Definition initial : State :=
  {| messages := []; input := []; isLoading := false;
     executionPopup := (false, []) |}.

Definition push (m : Message) (s : State) : State :=
  {| messages := messages s ++ [m]; input := input s;
     isLoading := isLoading s; executionPopup := executionPopup s |}.
Definition setInput (i : jsstring) (s : State) : State :=
  {| messages := messages s; input := i;
     isLoading := isLoading s; executionPopup := executionPopup s |}.
Definition setIsLoading (b : bool) (s : State) : State :=
  {| messages := messages s; input := input s;
     isLoading := b; executionPopup := executionPopup s |}.

(** [n.toString()] of an integral Number. *)
Definition toString (n : Z) : jsstring := lit (pretty n).

(** [data.key] on a parsed body: a TypeError on [null], [undefined] on
    anything that is not an object with that member. *)
Definition property (data : Json.value) (key : jsstring) : Promise jsval :=
  match data with
  | Json.Null => Rejected TypeError
  | Json.Object members => Resolved (Json.member key members)
  | _ => Resolved None
  end.

Definition apology : jsstring :=
  lit "Sorry, there was an error processing your request.".

(** [handleSubmit]; [now1] and [now2] are the readings of [Date.now()]
    for the user's message and for the reply. *)
Definition handleSubmit {W} (net : Fetch W) (now1 now2 : Z)
  : Async (State * W) unit :=
  s <- state ;;
  if negb (truthy (trim (input s))) || isLoading s then ret tt
  else
    let newMessage :=
      {| id := toString now1; type := user;
         content := Some (Json.String (trim (input s))); sources := None |} in
    update (push newMessage) ;;;
    update (setInput []) ;;;
    update (setIsLoading true) ;;;
    try_finally
      (try_catch
         (response <- call (fetch_any net
            {| route := query; method := POST; content_type_json := true;
               body := query_body (trim (input s)) |}) ;;
          data <- await (json response) ;;
          result <- await (property data (lit "result")) ;;
          srcs <- await (property data (lit "sources")) ;;
          update (push
            {| id := toString (now2 + 1); type := assistant;
               content := result; sources := srcs |}))
         (λ _, update (push
            {| id := toString (now2 + 1); type := assistant;
               content := Some (Json.String apology); sources := None |})))
      (λ '(s', w), (setIsLoading false s', w)).




End ChatInterface.

(* ================================================================== *)
(** ** The incident store behind the routes *)
(* ================================================================== *)

Module Backend.
Import JS Http.

(** Modelled from the spec: the stored incident record of the Incident
    Store (the back end that serves the routes is not among the
    front-end sources).  Timestamps are clock readings in
    milliseconds. *)
Record Row := {
  id : jsstring;
  title : jsstring;
  description : jsstring;
  component : jsstring;
  severity : Severity;
  affected_service : jsstring;
  status : Status;
  created_at : Z;
  updated_at : Z
}.

(** Modelled from the spec: the error taxonomy of the workflow
    controller. *)
Inductive Failure := ValidationError | NotFoundError | ExternalServiceError.

(** Modelled from the spec: the external collaborators the controller
    delegates to.  The analysis, health-check and chat services may
    fail; the action executor reports success or failure in its
    result. *)
Record Services := {
  analysis_service : Row → option Analysis.t;
  health_check_service : Row → option HealthCheckResult.t;
  action_executor : Row → jsstring → Params → ActionResult.t;
  rag_pipeline : jsstring → option Json.value
}.

(** Modelled from the spec: a mutation of a stored incident, which sets
    its status and bumps updated_at to now (the store is not in the
    sources). *)
Definition mutate (s : Status) (now : Z) (r : Row) : Row :=
  {| id := id r; title := title r; description := description r;
     component := component r; severity := severity r;
     affected_service := affected_service r; status := s;
     created_at := created_at r; updated_at := now |}.

(** Modelled from the spec: the status flip of analyze, for which the
    spec names no timestamp change. *)
Definition set_status (s : Status) (r : Row) : Row :=
  {| id := id r; title := title r; description := description r;
     component := component r; severity := severity r;
     affected_service := affected_service r; status := s;
     created_at := created_at r; updated_at := updated_at r |}.

(** Modelled from the spec: create.  The new incident gets a generated
    id no stored incident has, status open and both timestamps set to
    now.  The request is typed, so the required fields are present and
    the severity is one of the four levels: the validation the spec
    describes has nothing to reject. *)
Definition create (now : Z) (fields : IncidentFields.t)
    (store : gmap jsstring Row) : Row * gmap jsstring Row :=
  let row :=
    {| id := fresh (dom store);
       title := IncidentFields.title fields;
       description := IncidentFields.description fields;
       component := IncidentFields.component fields;
       severity := IncidentFields.severity fields;
       affected_service := IncidentFields.affected_service fields;
       status := open; created_at := now; updated_at := now |} in
  (row, <[id row := row]> store).

(** Modelled from the spec: list, all incidents in no promised order. *)
Definition list_all (store : gmap jsstring Row) : list Row :=
  snd <$> map_to_list store.

(** Modelled from the spec: analyze.  Unknown ids fail; otherwise the
    status becomes analyzing and the analysis service is invoked; a
    failure of the service leaves the incident in that state. *)
Definition analyze (sv : Services) (incidentId : jsstring)
    (store : gmap jsstring Row) : (Failure + Analysis.t) * gmap jsstring Row :=
  match store !! incidentId with
  | None => (inl NotFoundError, store)
  | Some row =>
      let store' := <[incidentId := set_status analyzing row]> store in
      match analysis_service sv row with
      | Some a => (inr a, store')
      | None => (inl ExternalServiceError, store')
      end
  end.

(** Modelled from the spec: executeAction.  Unknown ids fail; the action
    executor is invoked; on success the status becomes in_progress and
    updated_at becomes now; on failure the result, with success false
    and the executor's message, is returned and nothing is thrown. *)
Definition executeAction (sv : Services) (now : Z) (incidentId actionId : jsstring)
    (params : Params) (store : gmap jsstring Row)
  : (Failure + ActionResult.t) * gmap jsstring Row :=
  match store !! incidentId with
  | None => (inl NotFoundError, store)
  | Some row =>
      let result := action_executor sv row actionId params in
      if ActionResult.success result
      then (inr result, <[incidentId := mutate in_progress now row]> store)
      else (inr result, store)
  end.

(** Modelled from the spec: healthCheck, read-only. *)
Definition healthCheck (sv : Services) (incidentId : jsstring)
    (store : gmap jsstring Row) : Failure + HealthCheckResult.t :=
  match store !! incidentId with
  | None => inl NotFoundError
  | Some row =>
      match health_check_service sv row with
      | Some h => inr h
      | None => inl ExternalServiceError
      end
  end.

(** Modelled from the spec: close.  Unknown ids fail; otherwise the
    status becomes resolved and updated_at becomes now. *)
Definition close (now : Z) (incidentId : jsstring) (store : gmap jsstring Row)
  : (Failure + Row) * gmap jsstring Row :=
  match store !! incidentId with
  | None => (inl NotFoundError, store)
  | Some row =>
      let row' := mutate resolved now row in
      (inr row', <[incidentId := row']> store)
  end.

(** *** The HTTP surface *)

(** Modelled from the spec: the server's state as a request finds it,
    the store and the clock's reading. *)
Record World := {
  store : gmap jsstring Row;
  now : Z
}.

(** Modelled from the spec: the server's state after a request, which
    changes the store and not the clock's reading. *)
Definition with_store (w : World) (s : gmap jsstring Row) : World :=
  {| store := s; now := now w |}.

(** Modelled from the spec: a failure is answered with a status outside
    200-299; the spec does not fix which, and the body of such an answer
    is not of the route's type. *)
Definition failure_status (f : Failure) : nat :=
  match f with
  | ValidationError => 422
  | NotFoundError => 404
  | ExternalServiceError => 500
  end.

(** Modelled from the spec: the answer to a request, status 200 with the
    result as body, or the failure's status. *)
Definition answer {A B} (to_wire : A → B) (r : Failure + A) : Response B :=
  match r with
  | inr a => {| Http.status := 200; json := Resolved (to_wire a) |}
  | inl f => {| Http.status := failure_status f; json := Rejected SyntaxError |}
  end.

Section Routes.
Context (sv : Services).

(** The server's rendering of a timestamp. *)
Variable isoformat : Z → jsstring.

(** Modelled from the spec: the Incident the server sends for a stored
    record, its timestamps rendered as strings. *)
Definition to_wire (r : Row) : Incident.t :=
  {| Incident.id := id r; Incident.title := title r;
     Incident.description := description r;
     Incident.component := component r; Incident.severity := severity r;
     Incident.affected_service := affected_service r;
     Incident.status := status r;
     Incident.created_at := isoformat (created_at r);
     Incident.updated_at := isoformat (updated_at r) |}.

(** Modelled from the spec: the answer to a request no route of
    section 6 matches. *)
Definition not_found {A} : Response A :=
  {| Http.status := 404; json := Rejected SyntaxError |}.

(** Modelled from the spec: the routes of section 6 that answer with an
    Incident, create and close. *)
Definition serve_Incident (req : Request) : Async World (Response Incident.t) :=
  λ w,
  match route req, method req, body req with
  | incidents, POST, incident_body fields =>
      let '(row, s) := create (now w) fields (store w) in
      (Resolved (answer to_wire (inr row)), with_store w s)
  | Http.close i, POST, _ =>
      let '(r, s) := close (now w) i (store w) in
      (Resolved (answer to_wire r), with_store w s)
  | _, _, _ => (Resolved not_found, w)
  end.

(** Modelled from the spec: the list route. *)
Definition serve_Incidents (req : Request) : Async World (Response (list Incident.t)) :=
  λ w,
  match route req, method req with
  | incidents, GET =>
      (Resolved (answer (fmap to_wire) (inr (list_all (store w)))), w)
  | _, _ => (Resolved not_found, w)
  end.

(** Modelled from the spec: the analyze route. *)
Definition serve_Analysis (req : Request) : Async World (Response Analysis.t) :=
  λ w,
  match route req, method req with
  | Http.analyze i, POST =>
      let '(r, s) := analyze sv i (store w) in
      (Resolved (answer (λ a, a) r), with_store w s)
  | _, _ => (Resolved not_found, w)
  end.

(** Modelled from the spec: the execute-action route. *)
Definition serve_ActionResult (req : Request) : Async World (Response ActionResult.t) :=
  λ w,
  match route req, method req, body req with
  | execute_action i, POST, action_body actionId params =>
      let '(r, s) := executeAction sv (now w) i actionId params (store w) in
      (Resolved (answer (λ a, a) r), with_store w s)
  | _, _, _ => (Resolved not_found, w)
  end.

(** Modelled from the spec: the health-check route. *)
Definition serve_HealthCheckResult (req : Request)
  : Async World (Response HealthCheckResult.t) :=
  λ w,
  match route req, method req with
  | health_check i, POST =>
      (Resolved (answer (λ a, a) (healthCheck sv i (store w))), w)
  | _, _ => (Resolved not_found, w)
  end.

(** Modelled from the spec: the query route of the chat assistant, which
    relays the answer of the retrieval pipeline. *)
Definition serve_any (req : Request) : Async World (Response Json.value) :=
  λ w,
  match route req, method req, body req with
  | query, POST, query_body q =>
      match rag_pipeline sv q with
      | Some v => (Resolved {| Http.status := 200; json := Resolved v |}, w)
      | None => (Resolved (answer (λ a : Json.value, a) (inl ExternalServiceError)), w)
      end
  | _, _, _ => (Resolved not_found, w)
  end.

(** Modelled from the spec: the server as the front end's [fetch]
    reaches it. *)
Definition net : Fetch World :=
  {| fetch_Incident := serve_Incident;
     fetch_Incidents := serve_Incidents;
     fetch_Analysis := serve_Analysis;
     fetch_ActionResult := serve_ActionResult;
     fetch_HealthCheckResult := serve_HealthCheckResult;
     fetch_any := serve_any |}.

End Routes.

End Backend.

(* ================================================================== *)
(** ** Metrics page: [app/metrics/page.tsx] *)
(* ================================================================== *)

Module MetricsPage.
Import JS Http.

Record State := {
  incidents : list Incident.t;
  loading : bool
}.

Definition initial : State := {| incidents := []; loading := true |}.

Definition setIncidents (data : list Incident.t) (s : State) : State :=
  {| incidents := data; loading := loading s |}.
Definition setLoading (b : bool) (s : State) : State :=
  {| incidents := incidents s; loading := b |}.

Definition fetchIncidents {W} (net : Fetch W) : Async (State * W) unit :=
  try_finally
    (try_catch
       (data <- call (IncidentService.getIncidents net) ;;
        update (setIncidents data))
       (λ _, ret tt))
    (λ '(s, w), (setLoading false s, w)).

(** The data of the severity pie chart, in the order of its labels
    Critical, High, Medium, Low. *)
Definition severityData (incidents : list Incident.t) : list nat :=
  [ length (filter (λ i, Incident.severity i = critical) incidents);
    length (filter (λ i, Incident.severity i = high) incidents);
    length (filter (λ i, Incident.severity i = medium) incidents);
    length (filter (λ i, Incident.severity i = low) incidents) ].

(** The data of the bar chart of active incidents, in the order of its
    labels API Gateway, Database, Message Queue. *)
Definition componentData (incidents : list Incident.t) : list nat :=
  [ length (filter (λ i, Incident.component i = lit "api-gateway"
                         ∧ Incident.status i ≠ resolved) incidents);
    length (filter (λ i, Incident.component i = lit "database"
                         ∧ Incident.status i ≠ resolved) incidents);
    length (filter (λ i, Incident.component i = lit "message-queue"
                         ∧ Incident.status i ≠ resolved) incidents) ].

End MetricsPage.

(* ================================================================== *)
(** ** Sample data *)
(* ================================================================== *)

Module Samples.
Import JS Http.

Definition incident (id component : string) (sev : Severity) (st : Status)
    (created : string) : Incident.t :=
  {| Incident.id := lit id; Incident.title := lit "incident";
     Incident.description := []; Incident.component := lit component;
     Incident.severity := sev; Incident.affected_service := lit "customer-portal";
     Incident.status := st; Incident.created_at := lit created;
     Incident.updated_at := lit created |}.

(** Two open incidents of one component, the critical one first. *)
Definition gateway_critical : Incident.t :=
  incident "1" "api-gateway" critical open "2025-03-01T10:00:00.000Z".
Definition gateway_high : Incident.t :=
  incident "2" "api-gateway" high open "2025-03-01T11:00:00.000Z".

(** A network on which every request fails. *)
Definition offline {A} : Request → Async () (Response A) :=
  λ _ w, (Rejected TypeError, w).

(** The body a server sends with an internal error. *)
Definition error_body : Json.value :=
  Json.Object [(lit "detail", Json.String (lit "Internal Server Error"))].

(** A server that answers the chat query with [status] and that body. *)
Definition query_answers (status : nat) : Fetch () :=
  {| fetch_Incident := offline; fetch_Incidents := offline;
     fetch_Analysis := offline; fetch_ActionResult := offline;
     fetch_HealthCheckResult := offline;
     fetch_any := λ _ w,
       (Resolved {| Http.status := status; json := Resolved error_body |}, w) |}.


(** The engine's date parser on the two sample dates. *)
Definition getTime (s : jsstring) : option Z :=
  if decide (s = lit "2025-03-01T10:00:00.000Z") then Some 1740823200000
  else if decide (s = lit "2025-03-01T11:00:00.000Z") then Some 1740826800000
  else None.

Definition dashboard : RecentActivity.State :=
  {| RecentActivity.incidents := [gateway_high; gateway_critical];
     RecentActivity.isClosing := ∅; RecentActivity.refreshKey := 0;
     RecentActivity.alerts := [] |}.

(** Collaborators whose action executor reports [outcome] for every
    action, and whose other services are down. *)
Definition services (outcome : ActionResult.t) : Backend.Services :=
  {| Backend.analysis_service := λ _, None;
     Backend.health_check_service := λ _, None;
     Backend.action_executor := λ _ _ _, outcome;
     Backend.rag_pipeline := λ _, None |}.

Definition action_failed : ActionResult.t :=
  {| ActionResult.success := false;
     ActionResult.message := lit "restart failed: service unreachable" |}.
Definition action_done : ActionResult.t :=
  {| ActionResult.success := true; ActionResult.message := lit "restarted" |}.

(** A stored incident and a server that holds it. *)
Definition stored : Backend.Row :=
  {| Backend.id := lit "inc-1"; Backend.title := lit "API Gateway High CPU Usage";
     Backend.description := []; Backend.component := lit "api-gateway";
     Backend.severity := high; Backend.affected_service := lit "customer-portal";
     Backend.status := analyzing; Backend.created_at := 1000;
     Backend.updated_at := 1000 |}.

Definition server : Backend.World :=
  {| Backend.store := {[ lit "inc-1" := stored ]}; Backend.now := 2000 |}.



(** The server's rendering of its clock readings. *)
Definition isoformat (t : Z) : jsstring := lit (pretty t).

Definition typed_query : ChatInterface.State :=
  {| ChatInterface.messages := []; ChatInterface.input := lit "test query";
     ChatInterface.isLoading := false;
     ChatInterface.executionPopup := (false, []) |}.

(** A server that answers the list request with [status] and the
    incidents [l], an action request with [action] when there is one,
    and nothing else. *)
Definition lists (status : nat) (l : list Incident.t)
    (action : option ActionResult.t) : Fetch () :=
  {| fetch_Incident := offline;
     fetch_Incidents := λ _ w,
       (Resolved {| Http.status := status; json := Resolved l |}, w);
     fetch_Analysis := offline;
     fetch_ActionResult :=
       match action with
       | Some a => λ _ w, (Resolved {| Http.status := 200; json := Resolved a |}, w)
       | None => offline
       end;
     fetch_HealthCheckResult := offline;
     fetch_any := offline |}.

End Samples.

(* ================================================================== *)
(** * Properties *)
(* ================================================================== *)

(** Exposes the state passing of an asynchronous function. *)
Ltac async_unfold :=
  unfold Http.bind, Http.ret, Http.throw, Http.await, Http.try_catch,
    Http.try_finally, Http.update, Http.state, Http.call.

(** ** String operations *)

Section StringFacts.
Import JS.

Lemma code_unit_eqb_eq a b : code_unit_eqb a b = true ↔ a = b.
Proof. unfold code_unit_eqb. apply N.eqb_eq. Qed.

(** [startsWith] is the prefix test. *)
Lemma startsWith_prefix s pat :
  startsWith s pat = true ↔ ∃ rest, s = pat ++ rest.
Proof.
  revert s. induction pat as [|p pat IH]; intros s; simpl.
  - split; [by exists s | done].
  - destruct s as [|c s]; simpl.
    + split; [done | intros [rest ?]; done].
    + rewrite andb_true_iff, code_unit_eqb_eq, IH. split.
      * intros [-> [rest ->]]. eauto.
      * intros [rest [= -> ->]]. eauto.
Qed.

(** Replacing a prefix by the empty string drops it. *)
Lemma replace_prefix s pat rep :
  startsWith s pat = true → replace s pat rep = rep ++ drop (length pat) s.
Proof. intros H. destruct s; simpl; rewrite H; reflexivity. Qed.

Lemma replace_final_newline_cons c s :
  s ≠ [] → replace_final_newline (c :: s) = c :: replace_final_newline s.
Proof. destruct s; [done | reflexivity]. Qed.

Lemma replace_final_newline_app p s :
  s ≠ [] → replace_final_newline (p ++ s) = p ++ replace_final_newline s.
Proof.
  intros Hs. induction p as [|c p IH]; [done|]. simpl app.
  rewrite replace_final_newline_cons, IH; [done|]. by destruct p, s.
Qed.

(** The pattern of the source holds no line feed, so dropping a final
    line feed does not change whether the text starts with it. *)
Lemma startsWith_replace_final_newline s pat :
  Forall (λ p, p ≠ 10%N) pat →
  startsWith (replace_final_newline s) pat = startsWith s pat.
Proof.
  intros Hpat. revert pat Hpat.
  induction s as [|c s IH]; intros pat Hpat; [done|].
  destruct s as [|c' s].
  - simpl. destruct (code_unit_eqb c 10) eqn:E.
    + apply code_unit_eqb_eq in E as ->.
      destruct pat as [|p pat]; [done|]. cbn [startsWith].
      inversion_clear Hpat as [|? ? Hp _].
      destruct (code_unit_eqb 10 p) eqn:E'; [|done].
      apply code_unit_eqb_eq in E'. congruence.
    + done.
  - rewrite replace_final_newline_cons by done.
    destruct pat as [|p pat]; [done|].
    inversion_clear Hpat. cbn [startsWith]. by rewrite IH.
Qed.

Lemma trimEnd_snoc_white s c :
  is_white_space c = true → trimEnd (s ++ [c]) = trimEnd s.
Proof.
  intros Hc. unfold trimEnd. rewrite reverse_snoc. simpl. by rewrite Hc.
Qed.

Lemma replace_final_newline_snoc s :
  replace_final_newline s = s ∨ s = replace_final_newline s ++ [10%N].
Proof.
  induction s as [|c s IH]; [by left|].
  destruct s as [|c' s].
  - simpl. destruct (code_unit_eqb c 10) eqn:E; [|by left].
    apply code_unit_eqb_eq in E as ->. by right.
  - rewrite replace_final_newline_cons by done.
    destruct IH as [-> | IH]; [by left|]. right. cbn [app]. by rewrite <- IH.
Qed.

(** [trim] does not see a final line feed. *)
Lemma trim_replace_final_newline s : trim (replace_final_newline s) = trim s.
Proof.
  unfold trim. destruct (replace_final_newline_snoc s) as [-> | E]; [done|].
  rewrite E at 2. by rewrite trimEnd_snoc_white.
Qed.

(** What [trimStart] removes is white space, and what it leaves does
    not start with white space. *)
Lemma trimStart_spec s :
  ∃ pre, s = pre ++ trimStart s
         ∧ Forall (λ c, is_white_space c = true) pre
         ∧ (∀ c, head (trimStart s) = Some c → is_white_space c = false).
Proof.
  induction s as [|c s (pre & E & Hpre & Hhd)]; simpl.
  - exists []. by repeat split.
  - destruct (is_white_space c) eqn:Hc.
    + exists (c :: pre). repeat split; [by cbn [app]; rewrite <- E | by constructor | done].
    + exists []. repeat split; [done|]. intros c' [= <-]. done.
Qed.

Lemma trimEnd_spec s :
  ∃ post, s = trimEnd s ++ post
          ∧ Forall (λ c, is_white_space c = true) post
          ∧ (∀ c, last (trimEnd s) = Some c → is_white_space c = false).
Proof.
  destruct (trimStart_spec (reverse s)) as (pre & E & Hpre & Hhd).
  exists (reverse pre). unfold trimEnd. repeat split.
  - rewrite <- reverse_app, <- E. by rewrite reverse_involutive.
  - by apply Forall_reverse.
  - intros c. rewrite last_reverse. apply Hhd.
Qed.

(** [trim] removes white space at both ends and nothing else. *)
Lemma trim_spec s :
  ∃ pre post,
    s = pre ++ trim s ++ post
    ∧ Forall (λ c, is_white_space c = true) pre
    ∧ Forall (λ c, is_white_space c = true) post
    ∧ (∀ c, head (trim s) = Some c → is_white_space c = false)
    ∧ (∀ c, last (trim s) = Some c → is_white_space c = false).
Proof.
  destruct (trimEnd_spec s) as (post & E1 & Hpost & Hlast).
  destruct (trimStart_spec (trimEnd s)) as (pre & E2 & Hpre & Hhd).
  exists pre, post. unfold trim. repeat split; try done.
  - rewrite app_assoc, <- E2. exact E1.
  - intros c Hc. apply Hlast. rewrite E2, last_app. by rewrite Hc.
Qed.

End StringFacts.

(** ** Code blocks of a chat message *)

Section CodeBlocks.
Import JS Http.

Lemma command_prefix_no_newline : Forall (λ p, p ≠ 10%N) Chat.command_prefix.
Proof. repeat (constructor; [done|]). constructor. Qed.

Lemma trim_drop_prefix_final_newline children :
  startsWith children Chat.command_prefix = true →
  trim (drop (length Chat.command_prefix) (replace_final_newline children))
  = trim (drop (length Chat.command_prefix) children).
Proof.
  intros [rest ->]%startsWith_prefix.
  destruct (decide (rest = [])) as [-> | Hrest]; [reflexivity|].
  rewrite replace_final_newline_app by done.
  rewrite !drop_app_length. apply trim_replace_final_newline.
Qed.

(** A block that starts with the prefix: the text after the prefix,
    trimmed, is highlighted and is what the Run button executes. *)
Lemma code_command children :
  startsWith children Chat.command_prefix = true →
  Chat.code children
  = {| Chat.highlighted := trim (drop (length Chat.command_prefix) children);
       Chat.run_button := Some (trim (drop (length Chat.command_prefix) children)) |}.
Proof.
  intros H. unfold Chat.code.
  rewrite (startsWith_replace_final_newline _ _ command_prefix_no_newline), H.
  rewrite replace_prefix
    by (by rewrite (startsWith_replace_final_newline _ _ command_prefix_no_newline)).
  cbn [app]. by rewrite trim_drop_prefix_final_newline.
Qed.

(** Any other block is shown as it is, without a button. *)
Lemma code_plain children :
  startsWith children Chat.command_prefix = false →
  Chat.code children
  = {| Chat.highlighted := replace_final_newline children;
       Chat.run_button := None |}.
Proof.
  intros H. unfold Chat.code.
  by rewrite (startsWith_replace_final_newline _ _ command_prefix_no_newline), H.
Qed.


End CodeBlocks.

(** ** The execution popup *)

Section PopupFacts.
Import JS.

Lemma unreserved_not_surrogate c :
  URI.unreserved c = true →
  URI.is_trailing_surrogate c = false ∧ URI.is_leading_surrogate c = false.
Proof.
  unfold URI.unreserved, URI.is_trailing_surrogate, URI.is_leading_surrogate.
  rewrite !orb_true_iff, !andb_true_iff, !andb_false_iff,
    !N.leb_le, !N.eqb_eq, !N.leb_gt.
  lia.
Qed.

(** [encodeURIComponent] returns exactly on the well-formed strings. *)
Lemma encodeURIComponent_is_Some s :
  is_Some (URI.encodeURIComponent s) ↔ URI.well_formed s = true.
Proof.
  cut ((is_Some (URI.encodeURIComponent s) ↔ URI.well_formed s = true)
       ∧ ∀ c, is_Some (URI.encodeURIComponent (c :: s))
              ↔ URI.well_formed (c :: s) = true);
    [tauto|].
  induction s as [|d s [IH1 IH2]].
  - split; [done|]. intros c. cbn.
    destruct (URI.unreserved c) eqn:Hu.
    + destruct (unreserved_not_surrogate c Hu) as [-> ->]. done.
    + destruct (URI.is_trailing_surrogate c); [by split; [intros [? ?]|]|].
      destruct (URI.is_leading_surrogate c); [by split; [intros [? ?]|]|].
      done.
  - split; [apply IH2|]. intros c.
    cbn [URI.encodeURIComponent URI.well_formed].
    destruct (URI.unreserved c) eqn:Hu.
    + destruct (unreserved_not_surrogate c Hu) as [-> ->].
      rewrite fmap_is_Some. apply IH2.
    + destruct (URI.is_trailing_surrogate c); [by split; [intros [? ?]|]|].
      destruct (URI.is_leading_surrogate c).
      * destruct (URI.is_trailing_surrogate d); cbn [andb].
        -- rewrite fmap_is_Some. apply IH1.
        -- by split; [intros [? ?]|].
      * rewrite fmap_is_Some. apply IH2.
Qed.

(** Waiting in two steps is waiting once for the sum. *)
Lemma elapse_add a b p :
  Chat.elapse b (Chat.elapse a p) = Chat.elapse (a + b) p.
Proof.
  unfold Chat.elapse at 2 3. destruct p as [cmd st link [due|]]; cbn; [|done].
  destruct (Nat.leb_spec due a) as [Ha|Ha].
  - destruct (Nat.leb_spec due (a + b)); [|lia].
    unfold Chat.timeout_callback. cbn. by destruct (URI.encodeURIComponent cmd).
  - unfold Chat.elapse. cbn.
    destruct (Nat.leb_spec (due - a) b), (Nat.leb_spec due (a + b)); try lia.
    + unfold Chat.timeout_callback. cbn. by destruct (URI.encodeURIComponent cmd).
    + do 2 f_equal. lia.
Qed.





End PopupFacts.

(** ** Component health *)

Section ComponentHealth.
Import JS Http.
Variable getTime : jsstring → option Z.

(** The entries the callback makes when every lookup finds an entry of
    the object's own or nothing at all. *)
Local Abbreviation entries := (foldl (Health.upsert getTime) ∅).

(** The names under which a lookup finds a function or the prototype,
    whatever the page has put on [Object.prototype]. *)
Local Abbreviation shadowed c :=
  (c ∈ Health.builtin_functions ∨ c = lit "__proto__").

Lemma entries_snoc l i :
  entries (l ++ [i]) = Health.upsert getTime (entries l) i.
Proof. by rewrite foldl_app. Qed.

(** An incident changes the entry of its own component only, and by
    what that entry was. *)
Lemma upsert_lookup m i c :
  Health.upsert getTime m i !! c
  = if decide (Incident.component i = c)
    then Some (Health.touch getTime
                 (default {| Health.status := healthy; Health.incidents := 0;
                             Health.lastIncident := [] |} (m !! c)) i)
    else m !! c.
Proof.
  unfold Health.upsert. case_decide as E.
  - subst c. rewrite lookup_insert_eq. by destruct (m !! Incident.component i).
  - by rewrite lookup_insert_ne.
Qed.

Lemma upsert_other m i c :
  Incident.component i ≠ c → Health.upsert getTime m i !! c = m !! c.
Proof. intros H. by rewrite upsert_lookup, decide_False. Qed.

(** The status an incident leaves on its own component. *)
Lemma upsert_status m i :
  Health.status <$> Health.upsert getTime m i !! Incident.component i
  = Some (if decide (Incident.status i ≠ resolved) then
            if decide (Incident.severity i = critical) then unhealthy
            else if decide (Incident.severity i = high) then degraded
            else default healthy (Health.status <$> m !! Incident.component i)
          else default healthy (Health.status <$> m !! Incident.component i)).
Proof.
  rewrite upsert_lookup, decide_True by done. cbn.
  destruct (m !! Incident.component i); cbn; by repeat case_decide.
Qed.

(** What a lookup can inherit under a name. *)
Lemma inherited_shadowed p c :
  shadowed c
  ↔ Health.inherited p c = Health.builtin_function
    ∨ Health.inherited p c = Health.object_prototype.
Proof.
  unfold Health.inherited.
  destruct (bool_decide_reflect (c ∈ Health.builtin_functions)) as [Hb | Hb];
    [by split; left|].
  destruct (bool_decide_reflect (c = lit "__proto__")) as [Hp | Hp];
    [by split; right|].
  split; [by intros [|]|].
  destruct (bool_decide _); [by destruct (Health.proto_status p); intros [|]|].
  destruct (bool_decide _); [|by intros [|]].
  destruct (Health.proto_lastIncident p) as [last|]; [|by intros [|]].
  by destruct (truthy last); intros [|].
Qed.

Lemma forEach_snoc l i m0 p :
  Health.forEach getTime (l ++ [i]) m0 p
  = bind (Health.forEach getTime l m0) (λ m, Health.visit getTime m i) p.
Proof.
  revert m0 p. induction l as [|j l IH]; intros m0 p; cbn; unfold bind.
  - unfold ret. by destruct (Health.visit getTime m0 i p) as [[m|e] p'].
  - destruct (Health.visit getTime m0 j p) as [[m|e] p']; [|done].
    rewrite IH. done.
Qed.

(** The object [forEach] leaves, when it returns: no entry under a
    shadowed name, and under any other name the entry its incidents
    make. *)
Lemma forEach_lookup l p m p' c :
  Health.forEach getTime l ∅ p = (Resolved m, p') →
  m !! c = if decide (shadowed c) then None else entries l !! c.
Proof.
  revert m p' c. induction l as [|i l IH] using rev_ind; intros m p' c.
  - intros [= <- _]. rewrite lookup_empty. by case_decide.
  - rewrite forEach_snoc, entries_snoc. unfold bind.
    destruct (Health.forEach getTime l ∅ p) as [[m1|e] p1]; [|done].
    assert (∀ c', m1 !! c' = if decide (shadowed c') then None
                              else entries l !! c') as IH'
      by (intros c'; by apply (IH m1 p1)).
    clear IH. unfold Health.visit.
    assert (¬ shadowed (Incident.component i) →
            Health.upsert getTime m1 i !! c
            = if decide (shadowed c) then None
              else Health.upsert getTime (entries l) i !! c) as Hown.
    { intros Hi. rewrite !upsert_lookup. case_decide as E.
      - subst c. rewrite decide_False by done.
        rewrite (IH' (Incident.component i)), decide_False by done. done.
      - apply IH'. }
    assert (shadowed (Incident.component i) →
            m1 !! c = if decide (shadowed c) then None
                      else Health.upsert getTime (entries l) i !! c) as Hnone.
    { intros Hi. rewrite (IH' c). case_decide as Hc; [done|].
      rewrite upsert_other; [done|]. by intros <-. }
    destruct (m1 !! Incident.component i) as [h|] eqn:E1.
    + intros [= <- _]. apply Hown. intros Hi.
      rewrite (IH' (Incident.component i)), decide_True in E1; done.
    + pose proof (inherited_shadowed p1 (Incident.component i)) as Hs.
      destruct (Health.inherited p1 (Incident.component i)).
      * intros [= <- _]. apply Hown. rewrite Hs. by intros [|].
      * intros [= <- _]. apply Hnone, Hs. by left.
      * intros [= <- _]. apply Hnone, Hs. by right.
      * done.
Qed.

(** Under names that inherit nothing, [forEach] is the fold of the
    entries and leaves [Object.prototype] alone. *)
Lemma forEach_plain l m0 p :
  Forall (λ i, ∀ q, Health.inherited q (Incident.component i) = Health.falsy) l →
  Health.forEach getTime l m0 p
  = (Resolved (foldl (Health.upsert getTime) m0 l), p).
Proof.
  revert m0. induction l as [|i l IH]; intros m0 Hl; [done|].
  apply Forall_cons in Hl as [Hi Hl]. cbn. unfold bind, Health.visit.
  rewrite (Hi p). destruct (m0 !! Incident.component i); by rewrite IH.
Qed.

Lemma entries_unhealthy_when_last l1 i l2 :
  Incident.status i ≠ resolved →
  Incident.severity i = critical →
  Forall (λ j, Incident.component j = Incident.component i →
               Incident.status j ≠ resolved →
               Incident.severity j ≠ high) l2 →
  Health.status <$> entries (l1 ++ i :: l2) !! Incident.component i
  = Some unhealthy.
Proof.
  intros Hst Hsev. induction l2 as [|j l2 IH] using rev_ind; intros Hl2.
  - rewrite entries_snoc, upsert_status.
    by rewrite decide_True, decide_True.
  - apply Forall_app in Hl2 as [Hl2 [Hj _]%Forall_cons].
    specialize (IH Hl2).
    rewrite app_comm_cons, app_assoc, entries_snoc.
    destruct (decide (Incident.component j = Incident.component i)) as [E|NE].
    + rewrite <- E, upsert_status, E, IH. cbn.
      repeat case_decide; try done. by destruct (Hj E).
    + by rewrite upsert_other.
Qed.

(** What the page does guarantee: an unresolved critical incident makes
    its component unhealthy when no unresolved high incident of the
    component comes after it in the list, the component's name being
    none that [Object.prototype] shadows. *)
Lemma aggregate_unhealthy_when_last l1 i l2 p p' m :
  Health.forEach getTime (l1 ++ i :: l2) ∅ p = (Resolved m, p') →
  Incident.component i ∉ Health.builtin_functions →
  Incident.component i ≠ lit "__proto__" →
  Incident.status i ≠ resolved →
  Incident.severity i = critical →
  Forall (λ j, Incident.component j = Incident.component i →
               Incident.status j ≠ resolved →
               Incident.severity j ≠ high) l2 →
  Health.status <$> m !! Incident.component i = Some unhealthy.
Proof.
  intros Hrun Hb Hp Hst Hsev Hl2.
  rewrite (forEach_lookup _ _ _ _ _ Hrun), decide_False by (by intros [|]).
  by apply entries_unhealthy_when_last.
Qed.

(** C1, the failing input.  With an open critical incident followed by
    an open high incident of the same component, the page reports the
    component as degraded; in the other order it reports unhealthy.
    This is so whatever [Object.prototype] holds. *)
Theorem health_high_after_critical_is_degraded (p : Health.Prototype) :
  (∃ m, Health.forEach getTime
          [Samples.gateway_critical; Samples.gateway_high] ∅ p
        = (Resolved m, p)
        ∧ Health.status <$> m !! lit "api-gateway" = Some degraded)
  ∧ (∃ m, Health.forEach getTime
            [Samples.gateway_high; Samples.gateway_critical] ∅ p
          = (Resolved m, p)
          ∧ Health.status <$> m !! lit "api-gateway" = Some unhealthy).
Proof.
  assert (∀ q, Health.inherited q (lit "api-gateway") = Health.falsy) as Hplain
    by (intros q; vm_compute; reflexivity).
  split; (eexists; split; [apply forEach_plain; by repeat constructor|]).
  - change [Samples.gateway_critical; Samples.gateway_high]
      with ([Samples.gateway_critical] ++ [Samples.gateway_high]).
    rewrite entries_snoc. exact (upsert_status _ Samples.gateway_high).
  - change [Samples.gateway_high; Samples.gateway_critical]
      with ([Samples.gateway_high] ++ [Samples.gateway_critical]).
    rewrite entries_snoc. exact (upsert_status _ Samples.gateway_critical).
Qed.

End ComponentHealth.

(** The sample incidents with the critical one last. *)
Lemma aggregate_unhealthy_when_last_witness :
  match Health.forEach Samples.getTime
          ([Samples.gateway_high] ++ Samples.gateway_critical :: [])
          ∅ Health.pristine with
  | (Http.Resolved m, _) =>
      Health.status <$> m !! JS.lit "api-gateway" = Some unhealthy
  | (Http.Rejected _, _) => False
  end.
Proof.
  destruct (Health.forEach Samples.getTime
              ([Samples.gateway_high] ++ Samples.gateway_critical :: [])
              ∅ Health.pristine) as [[m|e] p'] eqn:E.
  - apply (aggregate_unhealthy_when_last Samples.getTime
             [Samples.gateway_high] Samples.gateway_critical []
             Health.pristine p' m E).
    + apply (bool_decide_eq_false_1 (_ ∈ _)). vm_compute. reflexivity.
    + done.
    + done.
    + done.
    + constructor.
  - vm_compute in E. discriminate E.
Defined.

(** ** Failed requests *)

Section FailedRequests.
Import JS Http.
Context {W : Type} (net : Fetch W).

(** The common shape of the six wrappers. *)
Lemma reject_unless_ok {A} (fetch : Async W (Response A)) message w response w' :
  fetch w = (Resolved response, w') →
  ok response = false →
  (response <- fetch ;;
   if negb (ok response) then throw (Error message)
   else await (json response)) w
  = (Rejected (Error message), w').
Proof. intros Hf Hok. unfold bind. by rewrite Hf, Hok. Qed.

(** Every method of [IncidentService] throws on an answer whose status
    is outside 200-299, whatever its body. *)
Lemma IncidentService_rejects_non_2xx :
  (∀ incident w r w',
      fetch_Incident net
        {| route := incidents; method := POST; content_type_json := true;
           body := incident_body incident |} w = (Resolved r, w') →
      ok r = false →
      IncidentService.createIncident net incident w
      = (Rejected (Error (lit "Failed to create incident")), w'))
  ∧ (∀ w r w',
      fetch_Incidents net
        {| route := incidents; method := GET; content_type_json := false;
           body := no_body |} w = (Resolved r, w') →
      ok r = false →
      IncidentService.getIncidents net w
      = (Rejected (Error (lit "Failed to fetch incidents")), w'))
  ∧ (∀ incidentId w r w',
      fetch_Analysis net
        {| route := analyze incidentId; method := POST;
           content_type_json := false; body := no_body |} w = (Resolved r, w') →
      ok r = false →
      IncidentService.analyzeIncident net incidentId w
      = (Rejected (Error (lit "Failed to analyze incident")), w'))
  ∧ (∀ incidentId actionId params w r w',
      fetch_ActionResult net
        {| route := execute_action incidentId; method := POST;
           content_type_json := true; body := action_body actionId params |} w
      = (Resolved r, w') →
      ok r = false →
      IncidentService.executeAction net incidentId actionId params w
      = (Rejected (Error (lit "Failed to execute action")), w'))
  ∧ (∀ incidentId w r w',
      fetch_HealthCheckResult net
        {| route := health_check incidentId; method := POST;
           content_type_json := false; body := no_body |} w = (Resolved r, w') →
      ok r = false →
      IncidentService.getHealthCheck net incidentId w
      = (Rejected (Error (lit "Failed to get health check")), w'))
  ∧ (∀ incidentId w r w',
      fetch_Incident net
        {| route := close incidentId; method := POST;
           content_type_json := false; body := no_body |} w = (Resolved r, w') →
      ok r = false →
      IncidentService.closeIncident net incidentId w
      = (Rejected (Error (lit "Failed to close incident")), w')).
Proof. split_and!; intros; eapply reject_unless_ok; eauto. Qed.

(** The chat never looks at the status: two servers whose answers differ
    in nothing but the status get the same treatment. *)
Lemma handleSubmit_status_blind (net' : Fetch W) now1 now2 σ :
  (∀ req w,
      match fetch_any net req w, fetch_any net' req w with
      | (Resolved r, w1), (Resolved r', w2) => json r = json r' ∧ w1 = w2
      | (Rejected _, w1), (Rejected _, w2) => w1 = w2
      | _, _ => False
      end) →
  ChatInterface.handleSubmit net now1 now2 σ
  = ChatInterface.handleSubmit net' now1 now2 σ.
Proof.
  intros H. destruct σ as [s w].
  unfold ChatInterface.handleSubmit. async_unfold.
  destruct (negb _ || _); [done|]. cbn.
  match goal with
  | |- context [fetch_any net ?req ?w] => specialize (H req w)
  end.
  destruct (fetch_any net _ _) as [[r|e] w1], (fetch_any net' _ _) as [[r'|e'] w2];
    try done.
  - destruct H as [-> ->]. done.
  - by subst.
Qed.

End FailedRequests.

(** The sample server answering 500 and answering 200. *)
Lemma handleSubmit_status_blind_witness :
  ChatInterface.handleSubmit (Samples.query_answers 500) 1000 2000
    (Samples.typed_query, ())
  = ChatInterface.handleSubmit (Samples.query_answers 200) 1000 2000
      (Samples.typed_query, ()).
Proof.
  apply (handleSubmit_status_blind (Samples.query_answers 500)
           (Samples.query_answers 200) 1000 2000 (Samples.typed_query, ())).
  intros req w. cbn. split; reflexivity.
Defined.

(** C2, the failing input.  The query is answered with status 500 and a
    JSON body.  The chat takes the body for a reply: it appends an
    assistant message whose content is the body's missing [result]
    ([undefined]), not its apology, exactly as it does when the same
    body comes with status 200. *)
Theorem handleSubmit_takes_500_for_a_reply :
  Http.ok {| Http.status := 500; Http.json := Http.Resolved Samples.error_body |} = false
  ∧ ChatInterface.handleSubmit (Samples.query_answers 500) 1000 2000
      (Samples.typed_query, ())
    = (Http.Resolved (),
       ({| ChatInterface.messages :=
             [ {| ChatInterface.id := JS.lit "1000";
                  ChatInterface.type := ChatInterface.user;
                  ChatInterface.content := Some (Json.String (JS.lit "test query"));
                  ChatInterface.sources := None |};
               {| ChatInterface.id := JS.lit "2001";
                  ChatInterface.type := ChatInterface.assistant;
                  ChatInterface.content := None;
                  ChatInterface.sources := None |} ];
           ChatInterface.input := [];
           ChatInterface.isLoading := false;
           ChatInterface.executionPopup := (false, []) |}, ()))
  ∧ ChatInterface.handleSubmit (Samples.query_answers 500) 1000 2000
      (Samples.typed_query, ())
    = ChatInterface.handleSubmit (Samples.query_answers 200) 1000 2000
        (Samples.typed_query, ()).
Proof. split_and!; vm_compute; reflexivity. Qed.

(** ** Resolution rates *)

Section ResolutionRates.

Lemma NaN_is_not_100 : Rates.Metrics_resolutionRate [] ≠ Num.of_Z 100.
Proof. intros E. apply (f_equal Num.isNaN) in E. vm_compute in E. discriminate. Qed.

(** On a list that is not empty the dashboard's guard is passed and both
    pages evaluate the same expression. *)
Lemma rates_agree_on_nonempty i incidents :
  Rates.resolutionRate (Rates.Overview_compute (i :: incidents))
  = Rates.Metrics_resolutionRate (i :: incidents).
Proof. reflexivity. Qed.

(** C10.  On the empty list the Metrics page divides zero by zero and
    its resolution rate is NaN, while the dashboard overview gives 100;
    the two rates differ on the empty list and on no other. *)
Theorem resolution_rates_differ_exactly_on_empty :
  Num.isNaN (Rates.percentage 0 0) = true
  ∧ Num.isNaN (Rates.Metrics_resolutionRate []) = true
  ∧ Rates.resolutionRate (Rates.Overview_compute []) = Num.of_Z 100
  ∧ ∀ incidents : list Incident.t,
      Rates.Metrics_resolutionRate incidents
      ≠ Rates.resolutionRate (Rates.Overview_compute incidents)
      ↔ incidents = [].
Proof.
  split_and!; try (vm_compute; reflexivity).
  intros [|i incidents].
  - split; [done|]. intros _. apply NaN_is_not_100.
  - rewrite rates_agree_on_nonempty. split; [done | discriminate].
Qed.

End ResolutionRates.

(** ** Recent activity: the list shown *)

Section SortFacts.
Context {A : Type} (compareFn : A → A → option Z).

Lemma insert_sorted_Permutation x l :
  JSArray.insert_sorted compareFn x l ≡ₚ x :: l.
Proof.
  induction l as [|y l IH]; cbn; [done|].
  destruct (_ <=? 0); [done|]. rewrite IH. apply Permutation_swap.
Qed.

(** Sorting rearranges the array and loses or adds nothing. *)
Lemma sort_Permutation l : JSArray.sort compareFn l ≡ₚ l.
Proof.
  induction l as [|x l IH]; cbn; [done|].
  by rewrite insert_sorted_Permutation, IH.
Qed.

End SortFacts.

Section RecentList.
Import JS Http.
Variable getTime : jsstring → option Z.

(** The creation times of the incidents at hand. *)
Variable t : Incident.t → Z.

Local Abbreviation parses i := (getTime (Incident.created_at i) = Some (t i)).

Lemma sort_order_newest_first a b :
  parses a → parses b →
  JSArray.sort_order (RecentActivity.newest_first getTime) a b = t b - t a.
Proof.
  unfold JSArray.sort_order, RecentActivity.newest_first.
  by intros -> ->.
Qed.

Lemma HdRel_insert_sorted a x l :
  HdRel (λ a b, t b ≤ t a) a l → t x ≤ t a →
  HdRel (λ a b, t b ≤ t a) a
    (JSArray.insert_sorted (RecentActivity.newest_first getTime) x l).
Proof.
  intros Hl Hx. destruct l as [|y l]; cbn; [by constructor|].
  destruct (_ <=? 0); constructor; [done|]. by inversion Hl.
Qed.

Lemma Sorted_insert_sorted x l :
  parses x → Forall (λ i, parses i) l →
  Sorted (λ a b, t b ≤ t a) l →
  Sorted (λ a b, t b ≤ t a)
    (JSArray.insert_sorted (RecentActivity.newest_first getTime) x l).
Proof.
  intros Hx Hl Hs. induction Hs as [|y l Hs IH Hhd]; cbn.
  - by repeat constructor.
  - apply Forall_cons in Hl as [Hy Hl].
    rewrite (sort_order_newest_first x y Hx Hy).
    destruct (Z.leb_spec (t y - t x) 0).
    + constructor; [by constructor|]. constructor. lia.
    + constructor; [by apply IH|]. apply HdRel_insert_sorted; [done | lia].
Qed.

(** With creation dates that parse, the sorted array runs from the
    newest incident to the oldest. *)
Lemma sort_newest_first l :
  Forall (λ i, parses i) l →
  StronglySorted (λ a b, t b ≤ t a)
    (JSArray.sort (RecentActivity.newest_first getTime) l).
Proof.
  intros Hl.
  assert (Transitive (λ a b : Incident.t, t b ≤ t a)) by (intros ???; lia).
  apply Sorted_StronglySorted; [done|].
  induction Hl as [|x l Hx Hl IH]; cbn; [constructor|].
  apply Sorted_insert_sorted; [done | | done].
  by rewrite sort_Permutation.
Qed.

End RecentList.

(** C8.  When the creation dates of the fetched incidents parse (to the
    times [t]), the list Recent Activity shows has at most five
    incidents, runs from the newest to the oldest, and consists of
    incidents of the fetched list such that no incident left out is
    newer than one shown; a successful fetch puts exactly this list on
    display. *)
Theorem recent_activity_shows_newest_five
    (getTime : JS.jsstring → option Z) (t : Incident.t → Z)
    (data : list Incident.t) :
  (∀ i, i ∈ data → getTime (Incident.created_at i) = Some (t i)) →
  length (RecentActivity.recent getTime data) = (5 `min` length data)%nat
  ∧ StronglySorted (λ a b, t b ≤ t a) (RecentActivity.recent getTime data)
  ∧ (∃ rest, data ≡ₚ RecentActivity.recent getTime data ++ rest
           ∧ ∀ a b, a ∈ RecentActivity.recent getTime data → b ∈ rest →
                    t b ≤ t a)
  ∧ ∀ (W : Type) (net : Http.Fetch W) (s : RecentActivity.State) (w w' : W),
      IncidentService.getIncidents net w = (Http.Resolved data, w') →
      RecentActivity.fetchIncidents net getTime (s, w)
      = (Http.Resolved (),
         (RecentActivity.setIncidents (λ _, RecentActivity.recent getTime data) s,
          w')).
Proof.
  intros Hdata.
  assert (Forall (λ i, getTime (Incident.created_at i) = Some (t i)) data)
    as Hp by by apply Forall_forall.
  pose proof (sort_newest_first getTime t data Hp) as Hs.
  unfold RecentActivity.recent.
  rewrite <- (take_drop 5 (JSArray.sort _ data)) in Hs.
  apply StronglySorted_app in Hs as (Hs12 & Hs1 & _).
  split_and!.
  - rewrite length_take, (Permutation_length (sort_Permutation _ data)). lia.
  - done.
  - exists (drop 5 (JSArray.sort (RecentActivity.newest_first getTime) data)).
    split; [by rewrite take_drop, sort_Permutation | done].
  - intros W net s w w' Hget.
    unfold RecentActivity.fetchIncidents. async_unfold.
    by rewrite Hget.
Qed.

(** The two sample incidents, fetched oldest first. *)
Lemma recent_activity_shows_newest_five_witness :
  length (RecentActivity.recent Samples.getTime
            [Samples.gateway_critical; Samples.gateway_high])
  = (5 `min` 2)%nat
  ∧ RecentActivity.recent Samples.getTime
      [Samples.gateway_critical; Samples.gateway_high]
    = [Samples.gateway_high; Samples.gateway_critical].
Proof.
  split; [|reflexivity].
  refine (proj1 (recent_activity_shows_newest_five Samples.getTime
                   (λ i, default 0 (Samples.getTime (Incident.created_at i)))
                   [Samples.gateway_critical; Samples.gateway_high] _)).
  intros i. rewrite !elem_of_cons, elem_of_nil.
  intros [-> | [-> | []]]; reflexivity.
Defined.

(** ** Closing an incident *)

Section Closing.
Import JS Http.
Context {W : Type} (net : Fetch W).

(** Between two lists on display: every row is still there under its
    id, and a resolved row is exactly as it was. *)
Local Abbreviation kept :=
  (Forall2 (λ i i' : Incident.t,
      Incident.id i' = Incident.id i
      ∧ (Incident.status i = resolved → i' = i))).









End Closing.



(** ** Executing an action *)

Section ActionExecution.
Import JS Http.

(** What the details page does with the outcome of the call: a toast of
    type success is put up only for a result whose [success] is true. *)
Lemma executeAction_toast {W} (net : Fetch W) incidentId actionId page w :
  ∃ page' w',
    IncidentDetails.executeAction net incidentId actionId (page, w)
    = (Resolved (), (page', w'))
    ∧ IncidentDetails.isLoading page' = false
    ∧ match IncidentService.executeAction net incidentId actionId [] w with
      | (Resolved result, w1) =>
          if ActionResult.success result
          then True
          else w' = w1 ∧ IncidentDetails.toast page' = IncidentDetails.toast page
      | (Rejected _, w1) =>
          w' = w1
          ∧ IncidentDetails.toast page'
            = Some {| IncidentDetails.message :=
                        lit "Failed to execute action. Please try again.";
                      IncidentDetails.type := IncidentDetails.error |}
      end.
Proof.
  unfold IncidentDetails.executeAction. async_unfold.
  destruct (IncidentService.executeAction net incidentId actionId [] w)
    as [[result|e] w1]; cbn.
  - destruct (ActionResult.success result); cbn; [|eauto 10].
    destruct (IncidentService.getIncidents net w1) as [[l|e] w2]; cbn; [|eauto 10].
    destruct (IncidentDetails.find_incident incidentId l); cbn;
      destruct (IncidentService.getHealthCheck net incidentId w2) as [[h|e] w3];
      cbn; eauto 10.
  - eauto 10.
Qed.

Variable sv : Backend.Services.
Variable isoformat : Z → jsstring.

(** Against the modelled server the wrapper returns what the controller
    returns, and throws for an unknown incident. *)
Lemma executeAction_over_http incidentId actionId params w :
  IncidentService.executeAction (Backend.net sv isoformat) incidentId actionId params w
  = match Backend.executeAction sv (Backend.now w) incidentId actionId params
            (Backend.store w) with
    | (inr result, store') => (Resolved result, Backend.with_store w store')
    | (inl _, store') =>
        (Rejected (Error (lit "Failed to execute action")),
         Backend.with_store w store')
    end.
Proof.
  unfold IncidentService.executeAction, bind. cbn.
  unfold Backend.serve_ActionResult. cbn.
  destruct (Backend.executeAction _ _ _ _ _ _) as [[f|result] store']; cbn;
    [by destruct f | done].
Qed.

(** C4.  On a known incident whose action fails, the call does not
    throw: it returns the executor's result, with success false and its
    message, and the store is as before.  The details page then puts up
    no toast at all; whatever the server, it puts up a success toast
    only after a result whose success is true. *)
Theorem failed_action_is_returned_not_thrown
    (w : Backend.World) (incidentId actionId : jsstring) (params : Params)
    (row : Backend.Row) :
  Backend.store w !! incidentId = Some row →
  ActionResult.success (Backend.action_executor sv row actionId params) = false →
  IncidentService.executeAction (Backend.net sv isoformat)
    incidentId actionId params w
  = (Resolved (Backend.action_executor sv row actionId params), w)
  ∧ (ActionResult.success (Backend.action_executor sv row actionId []) = false →
     ∀ page, ∃ page',
       IncidentDetails.executeAction (Backend.net sv isoformat)
         incidentId actionId (page, w)
       = (Resolved (), (page', w))
       ∧ IncidentDetails.toast page' = IncidentDetails.toast page
       ∧ IncidentDetails.isLoading page' = false)
  ∧ (∀ (W : Type) (net : Fetch W) page w0 page' w' t,
       IncidentDetails.executeAction net incidentId actionId (page, w0)
       = (Resolved (), (page', w')) →
       IncidentDetails.toast page' = Some t →
       IncidentDetails.toast page' ≠ IncidentDetails.toast page →
       IncidentDetails.type t = IncidentDetails.success →
       ∃ result w1,
         IncidentService.executeAction net incidentId actionId [] w0
         = (Resolved result, w1)
         ∧ ActionResult.success result = true).
Proof.
  intros Hrow Hfail. split_and!.
  - rewrite executeAction_over_http. unfold Backend.executeAction.
    rewrite Hrow. cbn zeta. rewrite Hfail. by destruct w.
  - intros Hfail' page.
    destruct (executeAction_toast (Backend.net sv isoformat) incidentId actionId
                page w) as (page' & w' & Hrun & Hload & Hcase).
    rewrite executeAction_over_http in Hcase. unfold Backend.executeAction in Hcase.
    rewrite Hrow in Hcase. cbn zeta in Hcase. rewrite !Hfail' in Hcase.
    destruct Hcase as [-> Htoast]. exists page'. split_and!; try done.
    rewrite Hrun. by destruct w.
  - intros W net page w0 page' w' t Hrun Ht Hchanged Hsuccess.
    destruct (executeAction_toast net incidentId actionId page w0)
      as (page1 & w1 & Hrun1 & _ & Hcase).
    rewrite Hrun in Hrun1. simplify_eq.
    destruct (IncidentService.executeAction net incidentId actionId [] w0)
      as [[result|e] w2].
    + destruct (ActionResult.success result) eqn:E; [eauto|].
      by destruct Hcase as [_ Hsame].
    + destruct Hcase as [_ Herr]. rewrite Herr in Ht. injection Ht as <-.
      discriminate Hsuccess.
Qed.

End ActionExecution.

(** A failing restart of the sample server's incident. *)
Lemma failed_action_is_returned_not_thrown_witness :
  IncidentService.executeAction
    (Backend.net (Samples.services Samples.action_failed) Samples.isoformat)
    (JS.lit "inc-1") (JS.lit "restart-service") [] Samples.server
  = (Http.Resolved Samples.action_failed, Samples.server).
Proof.
  refine (proj1 (failed_action_is_returned_not_thrown
                   (Samples.services Samples.action_failed) Samples.isoformat
                   Samples.server (JS.lit "inc-1") (JS.lit "restart-service") []
                   Samples.stored _ _)).
  - vm_compute. reflexivity.
  - reflexivity.
Defined.

(** ** The store's timestamps *)

Section StoreRuns.
Import JS Http.
Context (sv : Backend.Services) (isoformat : Z → jsstring).


End StoreRuns.



(** ** Creating an incident *)

Section Creation.
Import JS Http.
Variable sv : Backend.Services.
Variable isoformat : Z → jsstring.

(** The one request of [createIncident]: a POST to the incidents route
    whose body is the given fields, a record without an id. *)
Lemma createIncident_request {W} (net : Fetch W) fields w :
  IncidentService.createIncident net fields w
  = match fetch_Incident net
            {| route := incidents; method := POST; content_type_json := true;
               body := incident_body fields |} w with
    | (Resolved response, w1) =>
        if ok response then (json response, w1)
        else (Rejected (Error (lit "Failed to create incident")), w1)
    | (Rejected e, w1) => (Rejected e, w1)
    end.
Proof.
  unfold IncidentService.createIncident, bind.
  destruct (fetch_Incident net _ w) as [[response|e] w1]; [|done].
  by destruct (ok response).
Qed.

(** The id the store generates is one no stored incident has. *)
Lemma create_fresh now fields store :
  store !! Backend.id (Backend.create now fields store).1 = None.
Proof. cbn. apply not_elem_of_dom, is_fresh. Qed.

(** Against the modelled server the wrapper returns the stored row as
    the server renders it. *)
Lemma createIncident_over_http fields w :
  IncidentService.createIncident (Backend.net sv isoformat) fields w
  = (Resolved (Backend.to_wire isoformat
                 (Backend.create (Backend.now w) fields (Backend.store w)).1),
     Backend.with_store w
       (Backend.create (Backend.now w) fields (Backend.store w)).2).
Proof. reflexivity. Qed.

(** C6.  A create call sends the incident fields, which have no id, to
    the incidents route, and returns the stored new incident: its id is
    generated and belongs to no incident stored before, its status is
    open, its created_at equals its updated_at (the server's reading of
    now), and its other fields are the ones sent. *)
Theorem create_returns_new_open_incident
    (fields : IncidentFields.t) (w : Backend.World) :
  url incidents = lit "http://localhost:8000/incidents/"
  ∧ (∀ (W : Type) (net : Fetch W) (w0 : W),
       IncidentService.createIncident net fields w0
       = match fetch_Incident net
                 {| route := incidents; method := POST; content_type_json := true;
                    body := incident_body fields |} w0 with
         | (Resolved response, w1) =>
             if ok response then (json response, w1)
             else (Rejected (Error (lit "Failed to create incident")), w1)
         | (Rejected e, w1) => (Rejected e, w1)
         end)
  ∧ ∃ created row,
      IncidentService.createIncident (Backend.net sv isoformat) fields w
      = (Resolved created,
         Backend.with_store w (<[Incident.id created := row]> (Backend.store w)))
      ∧ created = Backend.to_wire isoformat row
      ∧ Backend.store w !! Incident.id created = None
      ∧ Incident.status created = open
      ∧ Incident.created_at created = Incident.updated_at created
      ∧ Backend.created_at row = Backend.now w
      ∧ Backend.updated_at row = Backend.now w
      ∧ Incident.title created = IncidentFields.title fields
      ∧ Incident.description created = IncidentFields.description fields
      ∧ Incident.component created = IncidentFields.component fields
      ∧ Incident.severity created = IncidentFields.severity fields
      ∧ Incident.affected_service created = IncidentFields.affected_service fields.
Proof.
  split; [reflexivity|]. split; [intros; apply createIncident_request|].
  exists (Backend.to_wire isoformat (Backend.create (Backend.now w) fields (Backend.store w)).1),
    (Backend.create (Backend.now w) fields (Backend.store w)).1.
  rewrite createIncident_over_http. split_and!; try reflexivity.
  apply (create_fresh (Backend.now w) fields (Backend.store w)).
Qed.

(** The dashboard's button reads the clock twice, so the two dates it
    sends may differ; the incident that comes back has one date. *)
Lemma handleCreateIncident_dates now1 now2 w :
  ∃ created w1,
    IncidentService.createIncident (Backend.net sv isoformat)
      (QuickActions.demo_incident now1 now2) w
    = (Resolved created, w1)
    ∧ Incident.created_at created = Incident.updated_at created
    ∧ Incident.status created = open.
Proof. rewrite createIncident_over_http. eauto. Qed.

End Creation.

(** ** The component health table *)

Section HealthTable.
Import JS Http.
Variable getTime : jsstring → option Z.

Local Abbreviation entries := (foldl (Health.upsert getTime) ∅).
Local Abbreviation shadowed c :=
  (c ∈ Health.builtin_functions ∨ c = lit "__proto__").

Lemma upsert_incidents m i :
  Health.incidents <$> Health.upsert getTime m i !! Incident.component i
  = Some (S (default 0%nat (Health.incidents <$> m !! Incident.component i))).
Proof.
  unfold Health.upsert. rewrite lookup_insert_eq. cbn.
  by destruct (m !! Incident.component i).
Qed.

Lemma entries_count l c :
  Health.incidents <$> entries l !! c
  = match length (filter (λ i, Incident.component i = c) l) with
    | O => None
    | S n => Some (S n)
    end.
Proof.
  induction l as [|i l IH] using rev_ind; [done|].
  rewrite (entries_snoc getTime), filter_app, length_app.
  destruct (decide (Incident.component i = c)) as [<- | NE].
  - rewrite upsert_incidents, IH, filter_cons_True by done. cbn.
    destruct (length (filter _ l)); cbn; f_equal; lia.
  - rewrite (upsert_other getTime) by done. rewrite IH, filter_cons_False by done.
    cbn. by rewrite Nat.add_0_r.
Qed.

(** When the table is built, a component's row counts the incidents of
    that component; a component without incidents has no row, and
    neither has one whose name is a function of [Object.prototype] or
    [__proto__], whatever its incidents. *)
Theorem component_row_counts_incidents
    (l : list Incident.t) (c : jsstring) (p p' : Health.Prototype)
    (m : gmap jsstring Health.ComponentHealth) :
  Health.forEach getTime l ∅ p = (Resolved m, p') →
  Health.incidents <$> m !! c
  = if decide (c ∈ Health.builtin_functions ∨ c = lit "__proto__") then None
    else match length (filter (λ i, Incident.component i = c) l) with
         | O => None
         | S n => Some (S n)
         end.
Proof.
  intros Hrun. rewrite (forEach_lookup getTime _ _ _ _ c Hrun).
  case_decide; [done | apply entries_count].
Qed.

(** What a row's status says about the list, whatever the order of the
    incidents. *)
Lemma entries_status_sound l c :
  match Health.status <$> entries l !! c with
  | None => ∀ i, i ∈ l → Incident.component i ≠ c
  | Some healthy =>
      (∃ i, i ∈ l ∧ Incident.component i = c)
      ∧ ∀ i, i ∈ l → Incident.component i = c →
             Incident.status i ≠ resolved →
             Incident.severity i ≠ critical ∧ Incident.severity i ≠ high
  | Some degraded =>
      ∃ i, i ∈ l ∧ Incident.component i = c
           ∧ Incident.status i ≠ resolved ∧ Incident.severity i = high
  | Some unhealthy =>
      ∃ i, i ∈ l ∧ Incident.component i = c
           ∧ Incident.status i ≠ resolved ∧ Incident.severity i = critical
  end.
Proof.
  induction l as [|i l IH] using rev_ind.
  - cbn [foldl]. rewrite lookup_empty. cbn. by intros i Hi%elem_of_nil.
  - rewrite (entries_snoc getTime).
    destruct (decide (Incident.component i = c)) as [<- | NE].
    + rewrite upsert_status.
      assert (∀ P : Incident.t → Prop,
                 (∃ j, j ∈ l ∧ P j) → ∃ j, j ∈ l ++ [i] ∧ P j) as Hmono
        by (intros P (j & Hj & HP); exists j;
            split; [apply elem_of_app; by left | done]).
      assert (i ∈ l ++ [i]) as Hi
        by (apply elem_of_app; right; apply list_elem_of_singleton; done).
      destruct (decide (Incident.status i ≠ resolved)) as [Hun | Hres].
      { destruct (decide (Incident.severity i = critical)) as [Hc | Hnc];
          [by exists i|].
        destruct (decide (Incident.severity i = high)) as [Hh | Hnh];
          [by exists i|].
        destruct (Health.status <$> entries l
                    !! Incident.component i) as [[]|]; cbn in *.
        - destruct IH as [_ IH]. split; [by exists i|].
          intros j [Hj | ->%list_elem_of_singleton]%elem_of_app ? ?;
            [by apply IH | done].
        - by apply Hmono.
        - by apply Hmono.
        - split; [by exists i|].
          intros j [Hj | ->%list_elem_of_singleton]%elem_of_app ? ?;
            [by destruct (IH j) | done]. }
      destruct (Health.status <$> entries l
                  !! Incident.component i) as [[]|]; cbn in *.
      * destruct IH as [_ IH]. split; [by exists i|].
        intros j [Hj | ->%list_elem_of_singleton]%elem_of_app ? ?;
          [by apply IH | done].
      * by apply Hmono.
      * by apply Hmono.
      * split; [by exists i|].
        intros j [Hj | ->%list_elem_of_singleton]%elem_of_app ? ?;
          [by destruct (IH j) | done].
    + rewrite (upsert_other getTime) by done.
      destruct (Health.status <$> entries l !! c) as [[]|];
        cbn in *.
      * destruct IH as [(j & Hj & Hc) IH'].
        split; [exists j; split; [apply elem_of_app; by left | done]|].
        intros j' [Hj' | ->%list_elem_of_singleton]%elem_of_app ? ?;
          [by apply IH' | done].
      * destruct IH as (j & Hj & Hrest). exists j.
        split; [apply elem_of_app; by left | done].
      * destruct IH as (j & Hj & Hrest). exists j.
        split; [apply elem_of_app; by left | done].
      * intros j [Hj | ->%list_elem_of_singleton]%elem_of_app; [by apply IH | done].
Qed.

Lemma entries_healthy_iff l c :
  Health.status <$> entries l !! c = Some healthy
  ↔ (∃ i, i ∈ l ∧ Incident.component i = c)
    ∧ ∀ i, i ∈ l → Incident.component i = c →
           Incident.status i ≠ resolved →
           Incident.severity i ≠ critical ∧ Incident.severity i ≠ high.
Proof.
  pose proof (entries_status_sound l c) as H.
  destruct (Health.status <$> entries l !! c) as [[]|].
  - done.
  - split; [done|]. intros [_ Hno]. destruct H as (i & Hi & Hc & Hun & Hsev).
    destruct (Hno i Hi Hc Hun) as [_ Hnh]. done.
  - split; [done|]. intros [_ Hno]. destruct H as (i & Hi & Hc & Hun & Hsev).
    destruct (Hno i Hi Hc Hun) as [Hnc _]. done.
  - split; [done|]. intros [(i & Hi & Hc) _]. by destruct (H i Hi).
Qed.

(** When the table is built, a component is shown healthy exactly when
    its name is none that [Object.prototype] shadows, it has incidents
    and none of them is an unresolved critical or high one, in whatever
    order the incidents come. *)
Theorem component_healthy_iff
    (l : list Incident.t) (c : jsstring) (p p' : Health.Prototype)
    (m : gmap jsstring Health.ComponentHealth) :
  Health.forEach getTime l ∅ p = (Resolved m, p') →
  Health.status <$> m !! c = Some healthy
  ↔ (c ∉ Health.builtin_functions)
    ∧ c ≠ lit "__proto__"
    ∧ (∃ i, i ∈ l ∧ Incident.component i = c)
    ∧ ∀ i, i ∈ l → Incident.component i = c →
           Incident.status i ≠ resolved →
           Incident.severity i ≠ critical ∧ Incident.severity i ≠ high.
Proof.
  intros Hrun. rewrite (forEach_lookup getTime _ _ _ _ c Hrun).
  case_decide as Hc.
  - split; [done|]. intros (Hb & Hp & _). by destruct Hc.
  - rewrite entries_healthy_iff. split.
    + intros [? ?]. split_and!; [| |done|done].
      * intros Hb. apply Hc. by left.
      * intros Hp. apply Hc. by right.
    + by intros (_ & _ & ? & ?).
Qed.

(** When the table is built, a row never raises a false alarm: an
    unhealthy row has an unresolved critical incident behind it, a
    degraded row an unresolved high one; and a component has no row
    exactly when it has no incident or its name is one that
    [Object.prototype] shadows. *)
Theorem component_alarm_has_cause
    (l : list Incident.t) (c : jsstring) (p p' : Health.Prototype)
    (m : gmap jsstring Health.ComponentHealth) :
  Health.forEach getTime l ∅ p = (Resolved m, p') →
  (Health.status <$> m !! c = Some unhealthy →
   ∃ i, i ∈ l ∧ Incident.component i = c
        ∧ Incident.status i ≠ resolved ∧ Incident.severity i = critical)
  ∧ (Health.status <$> m !! c = Some degraded →
     ∃ i, i ∈ l ∧ Incident.component i = c
          ∧ Incident.status i ≠ resolved ∧ Incident.severity i = high)
  ∧ (m !! c = None
     ↔ (c ∈ Health.builtin_functions ∨ c = lit "__proto__")
       ∨ ∀ i, i ∈ l → Incident.component i ≠ c).
Proof.
  intros Hrun. rewrite (forEach_lookup getTime _ _ _ _ c Hrun).
  case_decide as Hc; [split_and!; [done | done | by split; [left|]]|].
  pose proof (entries_status_sound l c) as H.
  destruct (entries l !! c) as [h|] eqn:E; cbn in H.
  - cbn. destruct (Health.status h) eqn:Es.
    + split_and!; [done | done |]. split; [done|].
      intros [? | Hno]; [done|]. destruct H as [(i & Hi & Hci) _].
      by destruct (Hno i Hi).
    + split_and!; [done | by intros _ |]. split; [done|].
      intros [? | Hno]; [done|]. destruct H as (i & Hi & Hci & _).
      by destruct (Hno i Hi).
    + split_and!; [by intros _ | done |]. split; [done|].
      intros [? | Hno]; [done|]. destruct H as (i & Hi & Hci & _).
      by destruct (Hno i Hi).
  - split_and!; [done | done | by split; [right|]].
Qed.

Lemma filter_length_0 {A} (P : A → Prop) `{∀ x, Decision (P x)} (l : list A) :
  length (filter P l) = 0%nat ↔ ∀ x, x ∈ l → ¬ P x.
Proof.
  induction l as [|x l IH].
  - split; [by intros _ y Hy%elem_of_nil | done].
  - destruct (decide (P x)) as [HP | HP].
    + rewrite filter_cons_True by done. cbn. split; [done|].
      intros Hno. destruct (Hno x); [by left | done].
    + rewrite filter_cons_False by done. rewrite IH. split.
      * intros Hl y [-> | Hy]%elem_of_cons; [done | by apply Hl].
      * intros Hl y Hy. apply Hl. by right.
Qed.


Section LastIncident.
(** The creation times of the incidents at hand. *)
Variable t : Incident.t → Z.

Lemma entries_newest_creation_date
    (l : list Incident.t) (c : jsstring) (h : Health.ComponentHealth) :
  getTime [] = None →
  (∀ i, i ∈ l → getTime (Incident.created_at i) = Some (t i)) →
  entries l !! c = Some h →
  ∃ i, i ∈ l ∧ Incident.component i = c
       ∧ Health.lastIncident h = Incident.created_at i
       ∧ ∀ j, j ∈ l → Incident.component j = c → t j ≤ t i.
Proof.
  intros Hempty. revert h.
  induction l as [|i l IH] using rev_ind; intros h Hparse Hh.
  - cbn [foldl] in Hh. by rewrite lookup_empty in Hh.
  - assert (∀ j, j ∈ l → getTime (Incident.created_at j) = Some (t j)) as Hparse'
      by (intros j Hj; apply Hparse, elem_of_app; by left).
    assert (i ∈ l ++ [i]) as Hi
      by (apply elem_of_app; right; by apply list_elem_of_singleton).
    rewrite (entries_snoc getTime) in Hh.
    destruct (decide (Incident.component i = c)) as [<- | NE].
    + rewrite (upsert_lookup getTime), decide_True in Hh by done.
      injection Hh as <-. unfold Health.touch. cbn [Health.lastIncident].
      destruct (entries l !! Incident.component i)
        as [h0|] eqn:E; cbn [from_option id Health.lastIncident].
      * destruct (IH h0 Hparse' eq_refl) as (i0 & Hi0 & Hc0 & Hlast & Hmax).
        rewrite Hlast. unfold Health.Date_gt.
        rewrite (Hparse i Hi), (Hparse' i0 Hi0).
        assert (truthy (Incident.created_at i0) = true) as ->.
        { destruct (Incident.created_at i0) eqn:Ec; [|done].
          pose proof (Hparse' i0 Hi0) as Hp. rewrite Ec, Hempty in Hp. done. }
        cbn [negb orb]. destruct (Z.ltb_spec (t i0) (t i)).
        -- exists i. split_and!; [done | done | done |].
           intros j [Hj | ->%list_elem_of_singleton]%elem_of_app Hc; [|lia].
           specialize (Hmax j Hj Hc). lia.
        -- exists i0. split_and!; [apply elem_of_app; by left | done | done |].
           intros j [Hj | ->%list_elem_of_singleton]%elem_of_app Hc; [|lia].
           by apply Hmax.
      * cbn. exists i. split_and!; [done | done | done |].
        intros j [Hj | ->%list_elem_of_singleton]%elem_of_app Hc; [|lia].
        pose proof (entries_status_sound l (Incident.component i)) as H.
        rewrite E in H. by destruct (H j Hj).
    + rewrite (upsert_other getTime) in Hh by done.
      destruct (IH h Hparse' Hh) as (i0 & Hi0 & Hc0 & Hlast & Hmax).
      exists i0. split_and!; [apply elem_of_app; by left | done | done |].
      intros j [Hj | ->%list_elem_of_singleton]%elem_of_app Hc; [by apply Hmax | done].
Qed.


(** With creation dates that parse (the empty string does not), the
    date in a component's row of the table is the creation date of a
    newest incident of that component. *)
Theorem row_shows_newest_creation_date
    (l : list Incident.t) (c : jsstring) (h : Health.ComponentHealth)
    (p p' : Health.Prototype) (m : gmap jsstring Health.ComponentHealth) :
  getTime [] = None →
  (∀ i, i ∈ l → getTime (Incident.created_at i) = Some (t i)) →
  Health.forEach getTime l ∅ p = (Resolved m, p') →
  m !! c = Some h →
  ∃ i, i ∈ l ∧ Incident.component i = c
       ∧ Health.lastIncident h = Incident.created_at i
       ∧ ∀ j, j ∈ l → Incident.component j = c → t j ≤ t i.
Proof.
  intros Hempty Hparse Hrun Hh.
  rewrite (forEach_lookup getTime _ _ _ _ c Hrun) in Hh.
  case_decide; [done|]. by apply entries_newest_creation_date.
Qed.

End LastIncident.

(** The three counters above the table: the critical incidents are among
    the active ones, and the active ones among all. *)
Theorem health_counters_ordered
    (m : gmap jsstring Health.ComponentHealth) (l : list Incident.t) :
  (Health.criticalIncidents (Health.compute m l)
   ≤ Health.activeIncidents (Health.compute m l))%nat
  ∧ (Health.activeIncidents (Health.compute m l)
     ≤ Health.totalIncidents (Health.compute m l))%nat
  ∧ (Health.activeIncidents (Health.compute m l) = 0%nat
     ↔ ∀ i, i ∈ l → Incident.status i = resolved).
Proof.
  cbn [Health.compute Health.criticalIncidents Health.activeIncidents
       Health.totalIncidents].
  split_and!.
  - induction l as [|i l IH]; [done|].
    destruct (decide (Incident.status i ≠ resolved)) as [Hun | Hres].
    + rewrite (filter_cons_True (λ i, Incident.status i ≠ resolved)) by done.
      destruct (decide (Incident.severity i = critical)).
      * rewrite filter_cons_True by done. cbn. lia.
      * rewrite filter_cons_False by (by intros []). cbn. lia.
    + rewrite (filter_cons_False (λ i, Incident.status i ≠ resolved)) by done.
      by rewrite filter_cons_False by (by intros []).
  - apply length_filter.
  - rewrite filter_length_0. split.
    + intros H i Hi. specialize (H i Hi).
      by destruct (decide (Incident.status i = resolved)).
    + intros H i Hi Hne. by apply Hne, H.
Qed.

End HealthTable.

(** An incident of a component named [constructor] before the sample
    one: the table has one row. *)
Lemma component_row_counts_incidents_witness :
  match Health.forEach Samples.getTime
          [Samples.incident "3" "constructor" critical open
             "2025-03-01T10:00:00.000Z"; Samples.gateway_high]
          ∅ Health.pristine with
  | (Http.Resolved m, _) =>
      Health.incidents <$> m !! JS.lit "constructor" = None
      ∧ Health.incidents <$> m !! JS.lit "api-gateway" = Some 1%nat
  | (Http.Rejected _, _) => False
  end.
Proof.
  destruct (Health.forEach Samples.getTime _ ∅ Health.pristine)
    as [[m|e] p'] eqn:E.
  - split.
    + exact (component_row_counts_incidents Samples.getTime _
               (JS.lit "constructor") _ _ _ E).
    + exact (component_row_counts_incidents Samples.getTime _
               (JS.lit "api-gateway") _ _ _ E).
  - vm_compute in E. discriminate E.
Defined.

(** A resolved critical incident leaves its component healthy. *)
Lemma component_healthy_iff_witness :
  match Health.forEach Samples.getTime
          [Samples.incident "4" "database" critical resolved
             "2025-03-01T10:00:00.000Z"]
          ∅ Health.pristine with
  | (Http.Resolved m, _) =>
      Health.status <$> m !! JS.lit "database" = Some healthy
  | (Http.Rejected _, _) => False
  end.
Proof.
  destruct (Health.forEach Samples.getTime _ ∅ Health.pristine)
    as [[m|e] p'] eqn:E.
  - apply (component_healthy_iff Samples.getTime _ (JS.lit "database") _ _ _ E).
    split_and!.
    + apply (bool_decide_eq_false_1 (_ ∈ _)). vm_compute. reflexivity.
    + done.
    + eexists. split; [by left | done].
    + intros i ->%list_elem_of_singleton _ Hst. by destruct Hst.
  - vm_compute in E. discriminate E.
Defined.

(** The two sample incidents: the row is degraded, and there is an open
    high incident to show for it. *)
Lemma component_alarm_has_cause_witness :
  match Health.forEach Samples.getTime
          [Samples.gateway_critical; Samples.gateway_high]
          ∅ Health.pristine with
  | (Http.Resolved m, _) =>
      ∃ i, i ∈ [Samples.gateway_critical; Samples.gateway_high]
           ∧ Incident.severity i = high
  | (Http.Rejected _, _) => False
  end.
Proof.
  destruct (Health.forEach Samples.getTime _ ∅ Health.pristine)
    as [[m|e] p'] eqn:E.
  - destruct (component_alarm_has_cause Samples.getTime _
                (JS.lit "api-gateway") _ _ _ E) as (_ & Hdegraded & _).
    destruct Hdegraded as (i & Hi & _ & _ & Hsev).
    + vm_compute in E. injection E as <- _. vm_compute. reflexivity.
    + exists i. split; [exact Hi | exact Hsev].
  - vm_compute in E. discriminate E.
Defined.


(** The sample incidents' row shows the later of their two dates. *)
Lemma row_shows_newest_creation_date_witness :
  ∃ i, i ∈ [Samples.gateway_critical; Samples.gateway_high]
       ∧ Incident.component i = JS.lit "api-gateway"
       ∧ JS.lit "2025-03-01T11:00:00.000Z" = Incident.created_at i.
Proof.
  destruct (row_shows_newest_creation_date Samples.getTime
              (λ i, default 0 (Samples.getTime (Incident.created_at i)))
              [Samples.gateway_critical; Samples.gateway_high]
              (JS.lit "api-gateway")
              {| Health.status := degraded; Health.incidents := 2;
                 Health.lastIncident := JS.lit "2025-03-01T11:00:00.000Z" |}
              Health.pristine Health.pristine
              (foldl (Health.upsert Samples.getTime) ∅
                 [Samples.gateway_critical; Samples.gateway_high]))
    as (i & Hi & Hc & Hlast & _).
  - reflexivity.
  - intros i. rewrite !elem_of_cons, elem_of_nil.
    intros [-> | [-> | []]]; reflexivity.
  - vm_compute. reflexivity.
  - vm_compute. reflexivity.
  - exists i. split_and!; [exact Hi | exact Hc | exact Hlast].
Defined.

(** ** The charts and the overview cards *)

Section Charts.
Import JS Http.

Lemma filter_and_length {A} (P Q : A → Prop)
    `{∀ x, Decision (P x)} `{∀ x, Decision (Q x)} (l : list A) :
  (length (filter (λ x, P x ∧ Q x) l) ≤ length (filter P l))%nat
  ∧ (length (filter (λ x, P x ∧ Q x) l) = length (filter P l)
     ↔ ∀ x, x ∈ l → P x → Q x).
Proof.
  induction l as [|x l [IHle IHeq]].
  - split; [done|]. split; [by intros _ y Hy%elem_of_nil | done].
  - destruct (decide (P x)) as [HP | HP].
    + rewrite (filter_cons_True P) by done.
      destruct (decide (Q x)) as [HQ | HQ].
      * rewrite filter_cons_True by done. cbn. split; [lia|].
        split.
        -- intros E y [-> | Hy]%elem_of_cons; [done|]. apply IHeq; [lia | done].
        -- intros Hall. f_equal. apply IHeq. intros y Hy. apply Hall. by right.
      * rewrite filter_cons_False by (by intros []). cbn. split; [lia|].
        split; [lia|]. intros Hall. destruct HQ. apply Hall; [by left | done].
    + rewrite (filter_cons_False P) by done.
      rewrite filter_cons_False by (by intros []). split; [done|].
      rewrite IHeq. split.
      * intros Hall y [-> | Hy]%elem_of_cons; [done | by apply Hall].
      * intros Hall y Hy. apply Hall. by right.
Qed.

(** The slices of the severity pie add up to the number of incidents. *)
Theorem severity_slices_sum_to_total (l : list Incident.t) :
  sum_list (MetricsPage.severityData l) = length l.
Proof.
  unfold MetricsPage.severityData, sum_list. cbn [sum_list_with]. unfold id.
  induction l as [|i l IH]; [done|].
  destruct (Incident.severity i) eqn:E;
    repeat (first [rewrite filter_cons_True by (by rewrite E)
                  | rewrite filter_cons_False by (by rewrite E)]);
    cbn [length]; lia.
Qed.

(** The bar chart counts an active incident only under one of its three
    fixed components: its bars add up to at most the number of active
    incidents, and to that number exactly when every active incident
    belongs to api-gateway, database or message-queue. *)
Theorem component_bars_cover_three_components (l : list Incident.t) :
  (sum_list (MetricsPage.componentData l)
   ≤ length (filter (λ i, Incident.status i ≠ resolved) l))%nat
  ∧ (sum_list (MetricsPage.componentData l)
     = length (filter (λ i, Incident.status i ≠ resolved) l)
     ↔ ∀ i, i ∈ l → Incident.status i ≠ resolved →
            Incident.component i = lit "api-gateway"
            ∨ Incident.component i = lit "database"
            ∨ Incident.component i = lit "message-queue").
Proof.
  assert (sum_list (MetricsPage.componentData l)
          = length (filter (λ i, Incident.status i ≠ resolved
                ∧ (Incident.component i = lit "api-gateway"
                   ∨ Incident.component i = lit "database"
                   ∨ Incident.component i = lit "message-queue")) l)) as ->.
  { unfold MetricsPage.componentData, sum_list. cbn [sum_list_with]. unfold id.
    assert (lit "api-gateway" ≠ lit "database") as Had by (by compute).
    assert (lit "api-gateway" ≠ lit "message-queue") as Ham by (by compute).
    assert (lit "database" ≠ lit "message-queue") as Hdm by (by compute).
    induction l as [|i l IH]; [done|].
    rewrite !filter_cons.
    repeat case_decide; cbn [length]; try lia; exfalso; intuition congruence. }
  apply (filter_and_length
           (λ i, Incident.status i ≠ resolved)
           (λ i, Incident.component i = lit "api-gateway"
                 ∨ Incident.component i = lit "database"
                 ∨ Incident.component i = lit "message-queue")).
Qed.

(** The overview cards: every incident is active or resolved, and the
    system health loses ten points per unresolved critical or high
    incident until it reaches zero. *)
Theorem overview_cards (l : list Incident.t) :
  (Rates.activeIncidents (Rates.Overview_compute l) + Rates.resolved_count l
   = length l)%nat
  ∧ Rates.avgResponseTime (Rates.Overview_compute l) = 15
  ∧ 0 ≤ Rates.systemHealth (Rates.Overview_compute l) ≤ 100
  ∧ Rates.systemHealth (Rates.Overview_compute l)
    = (let k := length (filter (λ i, Incident.status i ≠ resolved
                    ∧ (Incident.severity i = critical
                       ∨ Incident.severity i = high)) l) in
       if (k <=? 10)%nat then 100 - 10 * Z.of_nat k else 0).
Proof.
  cbn [Rates.Overview_compute Rates.activeIncidents Rates.avgResponseTime
       Rates.systemHealth].
  split_and!; [|done|lia|lia|].
  - unfold Rates.resolved_count. induction l as [|i l IH]; [done|].
    destruct (decide (Incident.status i = resolved)) as [E | NE].
    + rewrite (filter_cons_True (λ i, Incident.status i = resolved)) by done.
      rewrite filter_cons_False by (by intros []). cbn [length]. lia.
    + rewrite (filter_cons_False (λ i, Incident.status i = resolved)) by done.
      rewrite filter_cons_True by done. cbn [length]. lia.
  - cbn zeta.
    match goal with
    | |- context [(?k <=? 10)%nat] => destruct (Nat.leb_spec k 10)
    end; lia.
Qed.

End Charts.

(** ** Polling *)

Section Polling.
Import JS Http.
Context {W : Type} (net : Fetch W).
Variable getTime : jsstring → option Z.

(** When the list of incidents cannot be had (the network fails, the
    answer's status is outside 200-299 or its body does not parse), the
    health page, the overview cards and the recent activity list stay
    as they were, and the Metrics page leaves its loading state with the
    list it had; a Metrics page that had none yet then shows NaN as its
    resolution rate. *)
Theorem failed_poll_keeps_display (w w' : W) :
  match fetch_Incidents net
          {| route := incidents; method := GET; content_type_json := false;
             body := no_body |} w with
  | (Resolved r, w1) => w1 = w' ∧ (ok r = false ∨ ∃ e, json r = Rejected e)
  | (Rejected _, w1) => w1 = w'
  end →
  (∀ s, Health.fetchMetrics net getTime (s, w) = (Resolved (), (s, w')))
  ∧ (∀ s, Rates.Overview_fetchMetrics net (s, w) = (Resolved (), (s, w')))
  ∧ (∀ s, RecentActivity.fetchIncidents net getTime (s, w)
          = (Resolved (), (s, w')))
  ∧ (∀ s, MetricsPage.fetchIncidents net (s, w)
          = (Resolved (), (MetricsPage.setLoading false s, w')))
  ∧ Num.isNaN (Rates.Metrics_resolutionRate
                 (MetricsPage.incidents
                    (MetricsPage.setLoading false MetricsPage.initial))) = true.
Proof.
  intros H.
  assert (∃ e, IncidentService.getIncidents net w = (Rejected e, w')) as [e He].
  { unfold IncidentService.getIncidents. async_unfold.
    destruct (fetch_Incidents net _ w) as [[r|e] w1].
    - destruct H as [-> [Hok | [e He]]].
      + rewrite Hok. cbn. eauto.
      + destruct (ok r); cbn; [rewrite He|]; eauto.
    - subst. eauto. }
  split_and!.
  - intros s. unfold Health.fetchMetrics. async_unfold. by rewrite He.
  - intros s. unfold Rates.Overview_fetchMetrics. async_unfold. by rewrite He.
  - intros s. unfold RecentActivity.fetchIncidents. async_unfold. by rewrite He.
  - intros s. unfold MetricsPage.fetchIncidents. async_unfold. by rewrite He.
  - vm_compute. reflexivity.
Qed.

End Polling.

(** The sample server answering the list request with 503. *)
Lemma failed_poll_keeps_display_witness :
  RecentActivity.fetchIncidents (Samples.lists 503 [] None) Samples.getTime
    (Samples.dashboard, ())
  = (Http.Resolved (), (Samples.dashboard, ())).
Proof.
  refine (proj1 (proj2 (proj2 (failed_poll_keeps_display
            (Samples.lists 503 [] None) Samples.getTime () () _))) _).
  split; [reflexivity | left; reflexivity].
Defined.

(** ** Recent activity: ages and ties *)

Section Ages.
Import JS Http.
Variable getTime : jsstring → option Z.

(** The age shown for an incident, by the milliseconds since its
    creation: anything under a minute, a date in the future included, is
    "just now"; then whole minutes up to an hour, whole hours up to a
    day, and whole days, with the plural s unless the number is 1.  A
    date that does not parse gives "NaN days ago". *)
Theorem getTimeAgo_by_elapsed (now : Z) (dateString : jsstring) :
  match getTime dateString with
  | None =>
      RecentActivity.getTimeAgo getTime now dateString = lit "NaN days ago"
  | Some date =>
      RecentActivity.getTimeAgo getTime now dateString
      = if (now - date <? 60000) then lit "just now"
        else if (now - date <? 3600000) then
          lit (pretty ((now - date) `div` 60000)) ++ lit " minute"
          ++ (if decide ((now - date) `div` 60000 = 1) then [] else lit "s")
          ++ lit " ago"
        else if (now - date <? 86400000) then
          lit (pretty ((now - date) `div` 3600000)) ++ lit " hour"
          ++ (if decide ((now - date) `div` 3600000 = 1) then [] else lit "s")
          ++ lit " ago"
        else
          lit (pretty ((now - date) `div` 86400000)) ++ lit " day"
          ++ (if decide ((now - date) `div` 86400000 = 1) then [] else lit "s")
          ++ lit " ago"
  end.
Proof.
  unfold RecentActivity.getTimeAgo.
  destruct (getTime dateString) as [date|]; [|reflexivity].
  cbn [fmap option_fmap option_map RecentActivity.number_lt
       RecentActivity.number_toString].
  set (ms := now - date).
  assert ((ms `div` 1000) `div` 60 = ms `div` 60000) as -> by
    (rewrite Z.div_div by lia; done).
  assert ((ms `div` 60000) `div` 60 = ms `div` 3600000) as -> by
    (rewrite Z.div_div by lia; done).
  assert ((ms `div` 3600000) `div` 24 = ms `div` 86400000) as -> by
    (rewrite Z.div_div by lia; done).
  assert (∀ n : Z, RecentActivity.plural (Some n)
                   = if decide (n = 1) then [] else lit "s") as Hpl.
  { intros n. unfold RecentActivity.plural. repeat case_decide; congruence. }
  rewrite !Hpl.
  destruct (Z.ltb_spec (ms `div` 1000) 60), (Z.ltb_spec ms 60000);
    [done | exfalso; Z.div_mod_to_equations; lia
    | exfalso; Z.div_mod_to_equations; lia |].
  destruct (Z.ltb_spec (ms `div` 60000) 60), (Z.ltb_spec ms 3600000);
    [done | exfalso; Z.div_mod_to_equations; lia
    | exfalso; Z.div_mod_to_equations; lia |].
  destruct (Z.ltb_spec (ms `div` 3600000) 24), (Z.ltb_spec ms 86400000);
    [done | exfalso; Z.div_mod_to_equations; lia
    | exfalso; Z.div_mod_to_equations; lia | done].
Qed.

(** The creation times of the incidents at hand. *)
Variable t : Incident.t → Z.
Local Abbreviation parses i := (getTime (Incident.created_at i) = Some (t i)).

Lemma filter_insert_sorted τ x l :
  parses x → Forall (λ i, parses i) l →
  filter (λ i, t i = τ)
    (JSArray.insert_sorted (RecentActivity.newest_first getTime) x l)
  = filter (λ i, t i = τ) (x :: l).
Proof.
  intros Hx Hl. induction Hl as [|y l Hy Hl IH]; [done|].
  cbn [JSArray.insert_sorted].
  rewrite (sort_order_newest_first getTime t x y Hx Hy).
  destruct (Z.leb_spec (t y - t x) 0); [done|].
  rewrite (filter_cons _ y), IH, !filter_cons.
  repeat case_decide; try done; lia.
Qed.

(** Sorting is stable: the incidents created at one instant come out in
    the order the server sent them, and those of them that are shown are
    the first of that order. *)
Theorem recent_keeps_order_of_ties (data : list Incident.t) (τ : Z) :
  (∀ i, i ∈ data → getTime (Incident.created_at i) = Some (t i)) →
  filter (λ i, t i = τ)
    (JSArray.sort (RecentActivity.newest_first getTime) data)
  = filter (λ i, t i = τ) data
  ∧ filter (λ i, t i = τ) (RecentActivity.recent getTime data)
    `prefix_of` filter (λ i, t i = τ) data.
Proof.
  intros Hdata%Forall_forall.
  assert (filter (λ i, t i = τ)
            (JSArray.sort (RecentActivity.newest_first getTime) data)
          = filter (λ i, t i = τ) data) as Hsort.
  { induction Hdata as [|x l Hx Hl IH]; [done|]. cbn [JSArray.sort].
    rewrite filter_insert_sorted; [|done|by rewrite sort_Permutation].
    by rewrite !filter_cons, IH. }
  split; [done|]. rewrite <- Hsort. unfold RecentActivity.recent.
  rewrite <- (take_drop 5 (JSArray.sort _ data)) at 2.
  rewrite filter_app. by apply prefix_app_r.
Qed.

End Ages.

(** Three incidents created at the same instant, with a newer one
    between them: the three come out of the sort in the order they were
    sent. *)
Lemma recent_keeps_order_of_ties_witness :
  filter (λ i, default 0 (Samples.getTime (Incident.created_at i))
               = 1740823200000)
    (JSArray.sort (RecentActivity.newest_first Samples.getTime)
       [Samples.incident "5" "database" medium open "2025-03-01T10:00:00.000Z";
        Samples.gateway_high;
        Samples.incident "6" "message-queue" low open "2025-03-01T10:00:00.000Z";
        Samples.gateway_critical])
  = [Samples.incident "5" "database" medium open "2025-03-01T10:00:00.000Z";
     Samples.incident "6" "message-queue" low open "2025-03-01T10:00:00.000Z";
     Samples.gateway_critical].
Proof.
  etransitivity.
  - refine (proj1 (recent_keeps_order_of_ties Samples.getTime
                     (λ i, default 0 (Samples.getTime (Incident.created_at i)))
                     _ 1740823200000 _)).
    intros i. rewrite !elem_of_cons, elem_of_nil.
    intros [-> | [-> | [-> | [-> | []]]]]; reflexivity.
  - vm_compute. reflexivity.
Defined.

(** ** A failed close *)

Section FailedClose.
Import JS Http.
Context {W : Type} (net : Fetch W).

(** When the close call fails, the list on display is as it was, one
    alert is raised, the other components are not told to refresh, and
    the button of the row is enabled again. *)
Theorem failed_close_changes_nothing
    (incidentId : jsstring) (s : RecentActivity.State) (w w' : W) (e : Exn) :
  IncidentService.closeIncident net incidentId w = (Rejected e, w') →
  ∃ s',
    RecentActivity.handleCloseIncident net incidentId (s, w)
    = (Resolved (), (s', w'))
    ∧ RecentActivity.incidents s' = RecentActivity.incidents s
    ∧ RecentActivity.refreshKey s' = RecentActivity.refreshKey s
    ∧ RecentActivity.alerts s'
      = RecentActivity.alerts s
        ++ [lit "Failed to close incident. Please try again."]
    ∧ (∀ i, Incident.id i = incidentId → Incident.status i ≠ resolved →
            RecentActivity.close_button s' i = Some false)
    ∧ (∀ i, Incident.id i ≠ incidentId →
            RecentActivity.close_button s' i = RecentActivity.close_button s i).
Proof.
  intros Hclose. eexists. split.
  { unfold RecentActivity.handleCloseIncident. async_unfold.
    rewrite Hclose. cbn. reflexivity. }
  cbn. split_and!; try done.
  - intros i <- Hun. unfold RecentActivity.close_button. cbn.
    rewrite decide_True by done. by rewrite lookup_insert_eq.
  - intros i Hne. unfold RecentActivity.close_button. cbn.
    by rewrite !lookup_insert_ne.
Qed.

End FailedClose.

(** Closing a row of the sample dashboard while the network is down. *)
Lemma failed_close_changes_nothing_witness :
  ∃ s',
    RecentActivity.handleCloseIncident (Samples.query_answers 500) (JS.lit "2")
      (Samples.dashboard, ())
    = (Http.Resolved (), (s', ()))
    ∧ RecentActivity.incidents s' = RecentActivity.incidents Samples.dashboard.
Proof.
  destruct (failed_close_changes_nothing (Samples.query_answers 500)
              (JS.lit "2") Samples.dashboard () () Http.TypeError eq_refl)
    as (s' & Hrun & Hlist & _).
  exists s'. split; [exact Hrun | exact Hlist].
Defined.

(** ** Submitting a chat message *)

Section ChatSubmission.
Import JS Http.
Context {W : Type} (net : Fetch W).

Lemma trim_elem_of s c : c ∈ trim s → c ∈ s.
Proof.
  destruct (trim_spec s) as (pre & post & E & _). intros Hc. rewrite E.
  apply elem_of_app. right. apply elem_of_app. by left.
Qed.

(** [trim] gives the empty string exactly on strings of white space. *)
Lemma trim_nil_iff s : trim s = [] ↔ Forall (λ c, is_white_space c = true) s.
Proof.
  destruct (trim_spec s) as (pre & post & E & Hpre & Hpost & Hhd & _). split.
  - intros Hnil. rewrite E, Hnil. by apply Forall_app.
  - intros Hall. destruct (trim s) as [|c r] eqn:Et; [done|].
    assert (c ∈ s) as Hc by (apply trim_elem_of; rewrite Et; by left).
    rewrite Forall_forall in Hall. specialize (Hall c Hc).
    by rewrite (Hhd c eq_refl) in Hall.
Qed.

Lemma lit_inj s1 s2 : lit s1 = lit s2 → s1 = s2.
Proof.
  unfold lit. intros H.
  assert (list_ascii_of_string s1 = list_ascii_of_string s2) as H'.
  { revert H. generalize (list_ascii_of_string s1), (list_ascii_of_string s2).
    intros l1. induction l1 as [|a l1 IH]; intros [|b l2] H; try done.
    rewrite !fmap_cons in H. injection H as Hab Hl.
    f_equal; [|by apply IH].
    by rewrite <- (ascii_N_embedding a), <- (ascii_N_embedding b), Hab. }
  by rewrite <- (string_of_list_ascii_of_string s1),
    <- (string_of_list_ascii_of_string s2), H'.
Qed.

(** The reply appended for the outcome of the request. *)
Local Abbreviation reply_to outcome now2 :=
  (match outcome with
   | Resolved r =>
       match json r with
       | Resolved (Json.Object members) =>
           {| ChatInterface.id := ChatInterface.toString (now2 + 1);
              ChatInterface.type := ChatInterface.assistant;
              ChatInterface.content := Json.member (lit "result") members;
              ChatInterface.sources := Json.member (lit "sources") members |}
       | Resolved Json.Null | Rejected _ =>
           {| ChatInterface.id := ChatInterface.toString (now2 + 1);
              ChatInterface.type := ChatInterface.assistant;
              ChatInterface.content := Some (Json.String ChatInterface.apology);
              ChatInterface.sources := None |}
       | Resolved _ =>
           {| ChatInterface.id := ChatInterface.toString (now2 + 1);
              ChatInterface.type := ChatInterface.assistant;
              ChatInterface.content := None;
              ChatInterface.sources := None |}
       end
   | Rejected _ =>
       {| ChatInterface.id := ChatInterface.toString (now2 + 1);
          ChatInterface.type := ChatInterface.assistant;
          ChatInterface.content := Some (Json.String ChatInterface.apology);
          ChatInterface.sources := None |}
   end).

(** A submission that passes the guard sends one request and appends
    the user's message and one reply. *)
Lemma handleSubmit_runs now1 now2 s w :
  negb (truthy (trim (ChatInterface.input s))) || ChatInterface.isLoading s
  = false →
  ChatInterface.handleSubmit net now1 now2 (s, w)
  = let '(outcome, w') :=
      fetch_any net
        {| route := query; method := POST; content_type_json := true;
           body := query_body (trim (ChatInterface.input s)) |} w in
    (Resolved (),
     ({| ChatInterface.messages :=
           ChatInterface.messages s
           ++ [ {| ChatInterface.id := ChatInterface.toString now1;
                   ChatInterface.type := ChatInterface.user;
                   ChatInterface.content :=
                     Some (Json.String (trim (ChatInterface.input s)));
                   ChatInterface.sources := None |};
                reply_to outcome now2 ];
         ChatInterface.input := [];
         ChatInterface.isLoading := false;
         ChatInterface.executionPopup := ChatInterface.executionPopup s |},
      w')).
Proof.
  intros Hguard. unfold ChatInterface.handleSubmit. async_unfold.
  rewrite Hguard.
  unfold ChatInterface.setIsLoading, ChatInterface.setInput, ChatInterface.push.
  destruct (fetch_any net _ w) as [[r|e] w']; cbn -[lit app];
    [|by rewrite <- app_assoc].
  destruct (json r) as [[]|]; cbn -[lit app]; by rewrite <- app_assoc.
Qed.

(** A submission does nothing at all, and sends nothing, exactly when
    the input is blank or a request is under way. *)
Theorem handleSubmit_noop_iff (now1 now2 : Z) (s : ChatInterface.State) (w : W) :
  ChatInterface.handleSubmit net now1 now2 (s, w) = (Resolved (), (s, w))
  ↔ Forall (λ c, is_white_space c = true) (ChatInterface.input s)
    ∨ ChatInterface.isLoading s = true.
Proof.
  rewrite <- trim_nil_iff.
  destruct (negb (truthy (trim (ChatInterface.input s)))
            || ChatInterface.isLoading s) eqn:Hguard.
  - split.
    + intros _. apply orb_true_iff in Hguard as [Ht | Hl]; [left | by right].
      by destruct (trim (ChatInterface.input s)).
    + intros _. unfold ChatInterface.handleSubmit. async_unfold.
      by rewrite Hguard.
  - rewrite (handleSubmit_runs _ _ _ _ Hguard).
    apply orb_false_iff in Hguard as [Ht Hl]. split.
    + destruct (fetch_any net _ w) as [outcome w'].
      intros [= Hm _].
      apply (f_equal (λ x, length (ChatInterface.messages x))) in Hm.
      cbn [ChatInterface.messages] in Hm. rewrite length_app in Hm.
      cbn [length] in Hm. lia.
    + intros [Hnil | Htrue]; [by rewrite Hnil in Ht | congruence].
Qed.

(** A submission that passes the guard sends one request, a POST of the
    trimmed input to [http://127.0.0.1:8000/query], keeps the messages
    there were and appends two: the user's, whose content is the input
    without the white space at its ends and is not empty, and one from
    the assistant.  The input is cleared, the loading flag is off again,
    and when the clock has not gone back between the two readings the
    two new messages have different ids. *)
Theorem handleSubmit_appends_two (now1 now2 : Z) (s : ChatInterface.State) (w : W) :
  ¬ Forall (λ c, is_white_space c = true) (ChatInterface.input s) →
  ChatInterface.isLoading s = false →
  ∃ s' w' text reply,
    ChatInterface.handleSubmit net now1 now2 (s, w) = (Resolved (), (s', w'))
    ∧ w' = (fetch_any net
              {| route := query; method := POST; content_type_json := true;
                 body := query_body text |} w).2
    ∧ url query = lit "http://127.0.0.1:8000/query"
    ∧ ChatInterface.messages s'
      = ChatInterface.messages s
        ++ [ {| ChatInterface.id := ChatInterface.toString now1;
                ChatInterface.type := ChatInterface.user;
                ChatInterface.content := Some (Json.String text);
                ChatInterface.sources := None |}; reply ]
    ∧ text = trim (ChatInterface.input s)
    ∧ text ≠ []
    ∧ (∀ c, head text = Some c → is_white_space c = false)
    ∧ (∀ c, last text = Some c → is_white_space c = false)
    ∧ ChatInterface.type reply = ChatInterface.assistant
    ∧ ChatInterface.id reply = ChatInterface.toString (now2 + 1)
    ∧ (now1 ≤ now2 → ChatInterface.id reply ≠ ChatInterface.toString now1)
    ∧ ChatInterface.input s' = []
    ∧ ChatInterface.isLoading s' = false
    ∧ ChatInterface.executionPopup s' = ChatInterface.executionPopup s.
Proof.
  intros Hblank Hidle.
  assert (trim (ChatInterface.input s) ≠ []) as Htext
    by (by rewrite trim_nil_iff).
  assert (negb (truthy (trim (ChatInterface.input s)))
          || ChatInterface.isLoading s = false) as Hguard.
  { rewrite Hidle, orb_false_r. by destruct (trim (ChatInterface.input s)). }
  rewrite (handleSubmit_runs _ _ _ _ Hguard).
  destruct (trim_spec (ChatInterface.input s)) as (_ & _ & _ & _ & _ & Hhd & Hlast).
  destruct (fetch_any net _ w) as [outcome w'] eqn:Hfetch.
  eexists _, w', (trim (ChatInterface.input s)), (reply_to outcome now2).
  split; [reflexivity|]. rewrite Hfetch. cbn.
  assert (∀ r : ChatInterface.Message,
            ChatInterface.id r = ChatInterface.toString (now2 + 1) →
            now1 ≤ now2 → ChatInterface.id r ≠ ChatInterface.toString now1)
    as Hids.
  { intros r -> Hle Heq. unfold ChatInterface.toString in Heq.
    apply lit_inj, (inj pretty) in Heq. lia. }
  destruct outcome as [r|e]; [destruct (json r) as [[]|]|];
    split_and!; try done; by apply Hids.
Qed.

(** What the appended reply holds: the apology when the request fails,
    the body does not parse or the body is null; for any other body its
    [result] and [sources] members, the status of the answer playing no
    part, and [undefined] for both when the body is not an object. *)
Theorem handleSubmit_reply (now1 now2 : Z) (s : ChatInterface.State) (w : W) :
  ¬ Forall (λ c, is_white_space c = true) (ChatInterface.input s) →
  ChatInterface.isLoading s = false →
  last (ChatInterface.messages
          (ChatInterface.handleSubmit net now1 now2 (s, w)).2.1)
  = Some (reply_to
            (fetch_any net
               {| route := query; method := POST; content_type_json := true;
                  body := query_body (trim (ChatInterface.input s)) |} w).1
            now2).
Proof.
  intros Hblank Hidle.
  assert (negb (truthy (trim (ChatInterface.input s)))
          || ChatInterface.isLoading s = false) as Hguard.
  { rewrite Hidle, orb_false_r.
    destruct (trim (ChatInterface.input s)) eqn:E; [|done].
    by apply trim_nil_iff in E. }
  rewrite (handleSubmit_runs _ _ _ _ Hguard).
  destruct (fetch_any net _ w) as [outcome w']. cbn.
  by rewrite last_app.
Qed.

End ChatSubmission.

Lemma sample_query_not_blank :
  ¬ Forall (λ c, JS.is_white_space c = true)
      (ChatInterface.input Samples.typed_query).
Proof. intros H. inversion H as [|? ? Hc _]. discriminate Hc. Qed.

(** The sample query sent to the server that answers 500. *)
Lemma handleSubmit_appends_two_witness :
  ∃ s' w' text reply,
    ChatInterface.handleSubmit (Samples.query_answers 500) 1000 2000
      (Samples.typed_query, ())
    = (Http.Resolved (), (s', w'))
    ∧ text = JS.lit "test query"
    ∧ length (ChatInterface.messages s') = 2%nat
    ∧ ChatInterface.id reply ≠ ChatInterface.toString 1000.
Proof.
  destruct (handleSubmit_appends_two (Samples.query_answers 500) 1000 2000
              Samples.typed_query () sample_query_not_blank eq_refl)
    as (s' & w' & text & reply & Hrun & _ & _ & Hm & Ht & _ & _ & _ & _ & _ & Hid & _).
  exists s', w', text, reply. split_and!.
  - exact Hrun.
  - rewrite Ht. reflexivity.
  - rewrite Hm. reflexivity.
  - apply Hid. lia.
Defined.

(** The reply to the sample query answered with 500 and a JSON body. *)
Lemma handleSubmit_reply_witness :
  last (ChatInterface.messages
          (ChatInterface.handleSubmit (Samples.query_answers 500) 1000 2000
             (Samples.typed_query, ())).2.1)
  = Some {| ChatInterface.id := JS.lit "2001";
            ChatInterface.type := ChatInterface.assistant;
            ChatInterface.content := None;
            ChatInterface.sources := None |}.
Proof.
  rewrite (handleSubmit_reply (Samples.query_answers 500) 1000 2000
             Samples.typed_query () sample_query_not_blank eq_refl).
  reflexivity.
Defined.

(** ** The popup under a new command *)

Section PopupCommand.
Import JS.

(** When the popup has finished for one command and is handed another,
    it keeps the success notice and the link of the first command while
    the new timer runs: for the next two seconds the notice and the link
    belong to a command that is no longer the one shown. *)
Theorem popup_keeps_old_link (first second : jsstring) (ms : nat) :
  URI.well_formed first = true →
  second ≠ first →
  (ms < 2000)%nat →
  ∃ q,
    URI.encodeURIComponent first = Some q
    ∧ Chat.command
        (Chat.elapse ms (Chat.set_command second
                           (Chat.elapse 2000 (Chat.mount first))))
      = second
    ∧ Chat.render
        (Chat.elapse ms (Chat.set_command second
                           (Chat.elapse 2000 (Chat.mount first))))
      = Chat.ExecutedSuccessfully (Chat.link_head ++ q ++ Chat.link_tail).
Proof.
  intros [q Hq]%encodeURIComponent_is_Some Hne Hms. exists q.
  split; [done|].
  assert (Chat.elapse 2000 (Chat.mount first)
          = {| Chat.command := first; Chat.status := Chat.completed;
               Chat.splunkLink := Chat.link_head ++ q ++ Chat.link_tail;
               Chat.timer := None |}) as ->.
  { unfold Chat.elapse, Chat.mount, Chat.timeout_callback. cbn -[Chat.link_head Chat.link_tail].
    by rewrite Hq. }
  unfold Chat.set_command. cbn [Chat.command].
  rewrite decide_False by done.
  unfold Chat.elapse. cbn [Chat.timer Chat.command Chat.status Chat.splunkLink].
  destruct (Nat.leb_spec 2000 ms); [lia|]. done.
Qed.

End PopupCommand.

(** The popup of [ls], handed [pwd] once it has finished, a second on. *)
Lemma popup_keeps_old_link_witness :
  ∃ q,
    URI.encodeURIComponent (JS.lit "ls") = Some q
    ∧ Chat.command
        (Chat.elapse 1000 (Chat.set_command (JS.lit "pwd")
                             (Chat.elapse 2000 (Chat.mount (JS.lit "ls")))))
      = JS.lit "pwd"
    ∧ Chat.render
        (Chat.elapse 1000 (Chat.set_command (JS.lit "pwd")
                             (Chat.elapse 2000 (Chat.mount (JS.lit "ls")))))
      = Chat.ExecutedSuccessfully (Chat.link_head ++ q ++ Chat.link_tail).
Proof.
  apply (popup_keeps_old_link (JS.lit "ls") (JS.lit "pwd") 1000).
  - reflexivity.
  - discriminate.
  - lia.
Defined.

(** ** The encoded command *)

Section EncodedCommand.
Import JS.

Lemma hex_digit_unreserved n :
  (n < 16)%N → URI.unreserved (URI.hex_digit n) = true.
Proof.
  intros Hn. unfold URI.hex_digit, URI.unreserved.
  destruct (N.ltb_spec n 10);
    rewrite !orb_true_iff, !andb_true_iff, !N.leb_le, !N.eqb_eq; lia.
Qed.

Lemma lor_lt_256 a b : (a < 256)%N → (b < 256)%N → (N.lor a b < 256)%N.
Proof.
  intros Ha Hb. destruct (decide (N.lor a b = 0%N)) as [-> | Hnz]; [lia|].
  change 256%N with (2 ^ 8)%N. apply N.log2_lt_pow2; [lia|].
  rewrite N.log2_lor.
  assert (N.log2 a < 8)%N.
  { destruct (decide (a = 0%N)) as [-> | ?]; [done|].
    apply N.log2_lt_pow2; [lia | done]. }
  assert (N.log2 b < 8)%N.
  { destruct (decide (b = 0%N)) as [-> | ?]; [done|].
    apply N.log2_lt_pow2; [lia | done]. }
  lia.
Qed.

Lemma land_lt_256 a b : (b < 256)%N → (N.land a b < 256)%N.
Proof. intros Hb. pose proof (N.land_le_r a b). lia. Qed.

Lemma shiftr_lt_256 cp k : (cp < 256 * 2 ^ k)%N → (N.shiftr cp k < 256)%N.
Proof.
  intros H. rewrite N.shiftr_div_pow2.
  apply N.Div0.div_lt_upper_bound. lia.
Qed.

(** One octet becomes a percent sign and two hexadecimal digits. *)
Lemma percent_alphabet octet :
  (octet < 256)%N →
  Forall (λ c, URI.unreserved c = true ∨ c = 37%N) (URI.percent octet).
Proof.
  intros H. unfold URI.percent.
  constructor; [by right|]. constructor; [|constructor; [|constructor]].
  - left. apply hex_digit_unreserved. rewrite N.shiftr_div_pow2.
    apply N.Div0.div_lt_upper_bound. cbn. lia.
  - left. apply hex_digit_unreserved.
    change 15%N with (N.ones 4). rewrite N.land_ones.
    apply N.mod_upper_bound. done.
Qed.

Lemma utf8_octets cp :
  (cp < 1114112)%N → Forall (λ o, (o < 256)%N) (URI.utf8 cp).
Proof.
  intros H. unfold URI.utf8.
  repeat case_match; repeat constructor;
    repeat first
      [ apply lor_lt_256 | apply land_lt_256 | apply shiftr_lt_256 ];
    try (cbn; lia); try done.
  all: match goal with H : (_ <? _)%N = true |- _ => apply N.ltb_lt in H end;
    lia.
Qed.

Lemma escape_alphabet cp :
  (cp < 1114112)%N →
  Forall (λ c, URI.unreserved c = true ∨ c = 37%N) (URI.escape cp).
Proof.
  intros H. unfold URI.escape.
  induction (utf8_octets cp H) as [|o l Ho _ IH]; [constructor|].
  rewrite bind_cons. apply Forall_app.
  split; [by apply percent_alphabet | exact IH].
Qed.

Lemma encodeURIComponent_cons c rest :
  URI.encodeURIComponent (c :: rest)
  = if URI.unreserved c then cons c <$> URI.encodeURIComponent rest
    else if URI.is_trailing_surrogate c then None
    else if URI.is_leading_surrogate c then
      match rest with
      | d :: rest' =>
          if URI.is_trailing_surrogate d
          then app (URI.escape (URI.surrogate_pair c d))
                 <$> URI.encodeURIComponent rest'
          else None
      | [] => None
      end
    else app (URI.escape c) <$> URI.encodeURIComponent rest.
Proof. reflexivity. Qed.

(** Whatever the command, the text put into the Splunk link consists of
    unreserved characters and percent signs only: it holds no ampersand,
    equals sign, hash, question mark or space, so it cannot end the
    query parameter it sits in or add one. *)
Theorem encoded_command_is_inert (s q : jsstring) :
  Forall (λ c, (c < 65536)%N) s →
  URI.encodeURIComponent s = Some q →
  Forall (λ c, URI.unreserved c = true ∨ c = 37%N) q
  ∧ (38%N ∉ q) ∧ (61%N ∉ q) ∧ (35%N ∉ q) ∧ (63%N ∉ q) ∧ (32%N ∉ q).
Proof.
  intros Hs Hq.
  assert (Forall (λ c, URI.unreserved c = true ∨ c = 37%N) q) as Hall.
  { revert q Hq.
    cut ((∀ q, URI.encodeURIComponent s = Some q →
               Forall (λ c, URI.unreserved c = true ∨ c = 37%N) q)
         ∧ ∀ c, (c < 65536)%N →
                ∀ q, URI.encodeURIComponent (c :: s) = Some q →
                     Forall (λ c, URI.unreserved c = true ∨ c = 37%N) q);
      [tauto|].
    induction Hs as [|d s Hd Hs [IH1 IH2]].
    - split; [by intros q [= <-]|]. intros c Hc q. cbn.
      destruct (URI.unreserved c) eqn:Hu;
        [intros [= <-]; constructor; [by left | constructor]|].
      destruct (URI.is_trailing_surrogate c); [done|].
      destruct (URI.is_leading_surrogate c); [done|].
      intros [= <-]. rewrite app_nil_r. apply escape_alphabet. lia.
    - split; [by apply IH2|]. intros c Hc q.
      rewrite encodeURIComponent_cons. cbv iota.
      destruct (URI.unreserved c) eqn:Hu.
      { destruct (URI.encodeURIComponent (d :: s)) as [q'|] eqn:E; [|done].
        intros [= <-]. constructor; [by left | by apply (IH2 d Hd)]. }
      destruct (URI.is_trailing_surrogate c); [done|].
      destruct (URI.is_leading_surrogate c) eqn:Hlead.
      + destruct (URI.is_trailing_surrogate d) eqn:Htrail; [|done].
        destruct (URI.encodeURIComponent s) as [q'|] eqn:E; [|done].
        intros [= <-]. apply Forall_app. split; [|by apply IH1].
        apply escape_alphabet. unfold URI.surrogate_pair.
        unfold URI.is_leading_surrogate in Hlead.
        unfold URI.is_trailing_surrogate in Htrail.
        apply andb_true_iff in Hlead as [?%N.leb_le ?%N.leb_le].
        apply andb_true_iff in Htrail as [?%N.leb_le ?%N.leb_le]. lia.
      + destruct (URI.encodeURIComponent (d :: s)) as [q'|] eqn:E; [|done].
        intros [= <-]. apply Forall_app. split; [|by apply (IH2 d Hd)].
        apply escape_alphabet. lia. }
  split; [done|]. rewrite Forall_forall in Hall.
  split_and!; intros Hin; by destruct (Hall _ Hin).
Qed.

End EncodedCommand.

(** The command [rm -rf /tmp/a&b=c] in the link. *)
Lemma encoded_command_is_inert_witness :
  ∃ q, URI.encodeURIComponent (JS.lit "rm -rf /tmp/a&b=c") = Some q
       ∧ (38%N ∉ q) ∧ (61%N ∉ q).
Proof.
  exists (default [] (URI.encodeURIComponent (JS.lit "rm -rf /tmp/a&b=c"))).
  split; [reflexivity|].
  destruct (encoded_command_is_inert (JS.lit "rm -rf /tmp/a&b=c")
              (default [] (URI.encodeURIComponent (JS.lit "rm -rf /tmp/a&b=c"))))
    as (_ & Hamp & Heq & _).
  - repeat constructor.
  - reflexivity.
  - split; [exact Hamp | exact Heq].
Defined.

(** ** A command block without a command *)

Section EmptyCommand.
Import JS.

(** A block whose content is the prefix followed by white space only
    still gets its Run button, and the button runs the empty command;
    no other block does. *)
Theorem run_button_with_empty_command (children : jsstring) :
  Chat.run_button (Chat.code children) = Some []
  ↔ ∃ blank, children = Chat.command_prefix ++ blank
             ∧ Forall (λ c, is_white_space c = true) blank.
Proof.
  destruct (startsWith children Chat.command_prefix) eqn:H.
  - rewrite (code_command _ H). cbn [Chat.run_button].
    apply startsWith_prefix in H as [rest ->].
    change (drop (length Chat.command_prefix) (Chat.command_prefix ++ rest))
      with rest.
    split.
    + intros [= Hnil]. exists rest. split; [done|]. by apply trim_nil_iff.
    + intros (blank & ->%app_inv_head & Hblank). f_equal. by apply trim_nil_iff.
  - rewrite (code_plain _ H). cbn [Chat.run_button]. split; [done|].
    intros (blank & -> & _).
    assert (startsWith (Chat.command_prefix ++ blank) Chat.command_prefix = true)
      as Hs by (apply startsWith_prefix; eauto).
    congruence.
Qed.

End EmptyCommand.

(** ** Loading and acting on the details page *)

Section DetailsPage.
Import JS Http.
Context {W : Type} (net : Fetch W) (incidentId : jsstring).

(** Opening the page of an id the list does not hold sends no further
    request and leaves the page on its loading placeholder; and when the
    analysis of a listed incident fails, the incident is shown without
    analysis or actions and its health check is never requested. *)
Theorem details_page_load (s : IncidentDetails.State) (w w1 : W)
    (l : list Incident.t) :
  IncidentService.getIncidents net w = (Resolved l, w1) →
  (IncidentDetails.find_incident incidentId l = None →
   IncidentDetails.fetchIncidentDetails net incidentId (s, w)
   = (Resolved (), (s, w1)))
  ∧ (∀ current e w2,
       IncidentDetails.find_incident incidentId l = Some current →
       IncidentService.analyzeIncident net incidentId w1 = (Rejected e, w2) →
       IncidentDetails.fetchIncidentDetails net incidentId (s, w)
       = (Resolved (), (IncidentDetails.setIncident current s, w2)))
  ∧ (∀ current, IncidentDetails.find_incident incidentId l = Some current →
       Incident.id current = incidentId ∧ current ∈ l).
Proof.
  intros Hlist. split_and!.
  - intros Hfind. unfold IncidentDetails.fetchIncidentDetails. async_unfold.
    by rewrite Hlist, Hfind.
  - intros current e w2 Hfind Han.
    unfold IncidentDetails.fetchIncidentDetails. async_unfold.
    rewrite Hlist, Hfind. cbn. by rewrite Han.
  - intros current Hfind. unfold IncidentDetails.find_incident in Hfind.
    apply find_some in Hfind as [Hin Hid].
    split; [by apply bool_decide_eq_true in Hid | by apply list_elem_of_In].
Qed.

(** When the action succeeds but the list cannot be fetched again
    afterwards, the page reports a failure of the action: it puts up the
    error toast, and the incident on display is not updated. *)
Theorem action_done_but_reported_failed
    (actionId : jsstring) (s : IncidentDetails.State) (w w1 w2 : W)
    (result : ActionResult.t) (e : Exn) :
  IncidentService.executeAction net incidentId actionId [] w
  = (Resolved result, w1) →
  ActionResult.success result = true →
  IncidentService.getIncidents net w1 = (Rejected e, w2) →
  ∃ s',
    IncidentDetails.executeAction net incidentId actionId (s, w)
    = (Resolved (), (s', w2))
    ∧ IncidentDetails.toast s'
      = Some {| IncidentDetails.message :=
                  lit "Failed to execute action. Please try again.";
                IncidentDetails.type := IncidentDetails.error |}
    ∧ IncidentDetails.incident s' = IncidentDetails.incident s
    ∧ IncidentDetails.healthStatus s' = IncidentDetails.healthStatus s
    ∧ IncidentDetails.isLoading s' = false.
Proof.
  intros Hexec Hsuccess Hlist. eexists. split.
  { unfold IncidentDetails.executeAction. async_unfold.
    rewrite Hexec. cbn. rewrite Hsuccess, Hlist. cbn. reflexivity. }
  done.
Qed.

End DetailsPage.

(** The sample list does not hold the id [inc-9]. *)
Lemma details_page_load_witness :
  IncidentDetails.fetchIncidentDetails
    (Samples.lists 200 [Samples.gateway_critical] None) (JS.lit "inc-9")
    (IncidentDetails.initial, ())
  = (Http.Resolved (), (IncidentDetails.initial, ())).
Proof.
  refine (proj1 (details_page_load
                   (Samples.lists 200 [Samples.gateway_critical] None)
                   (JS.lit "inc-9") IncidentDetails.initial () ()
                   [Samples.gateway_critical] eq_refl) _).
  reflexivity.
Defined.

(** A server that performs the action and then fails to list. *)
Lemma action_done_but_reported_failed_witness :
  ∃ s',
    IncidentDetails.executeAction
      (Samples.lists 503 [] (Some Samples.action_done)) (JS.lit "1")
      (JS.lit "restart-service") (IncidentDetails.initial, ())
    = (Http.Resolved (), (s', ()))
    ∧ IncidentDetails.type <$> IncidentDetails.toast s'
      = Some IncidentDetails.error.
Proof.
  destruct (action_done_but_reported_failed
              (Samples.lists 503 [] (Some Samples.action_done)) (JS.lit "1")
              (JS.lit "restart-service") IncidentDetails.initial () () ()
              Samples.action_done
              (Http.Error (JS.lit "Failed to fetch incidents"))
              eq_refl eq_refl eq_refl)
    as (s' & Hrun & Htoast & _).
  exists s'. split; [exact Hrun | by rewrite Htoast].
Defined.

(** ** The Create Incident button *)

Section CreateButton.
Import JS Http.
Context {W : Type} (net : Fetch W).

(** The button always ends with its busy flag cleared.  It raises the
    alert "Failed to create incident" when the creation fails and also
    when the incident was created and only its analysis failed; it
    reloads the page only when both calls succeed, and asks for no
    analysis when the creation failed. *)
Theorem create_button_outcome (now1 now2 : jsstring) (s : QuickActions.State)
    (w : W) :
  ∃ s' w',
    QuickActions.handleCreateIncident net now1 now2 (s, w)
    = (Resolved (), (s', w'))
    ∧ QuickActions.isCreatingIncident s' = false
    ∧ match IncidentService.createIncident net
              (QuickActions.demo_incident now1 now2) w with
      | (Rejected _, w1) =>
          w' = w1
          ∧ QuickActions.alerts s'
            = QuickActions.alerts s
              ++ [lit "Failed to create incident. Please try again."]
          ∧ QuickActions.reloaded s' = QuickActions.reloaded s
      | (Resolved created, w1) =>
          match IncidentService.analyzeIncident net (Incident.id created) w1 with
          | (Rejected _, w2) =>
              w' = w2
              ∧ QuickActions.alerts s'
                = QuickActions.alerts s
                  ++ [lit "Failed to create incident. Please try again."]
              ∧ QuickActions.reloaded s' = QuickActions.reloaded s
          | (Resolved _, w2) =>
              w' = w2
              ∧ QuickActions.alerts s' = QuickActions.alerts s
              ∧ QuickActions.reloaded s' = true
          end
      end.
Proof.
  unfold QuickActions.handleCreateIncident. async_unfold.
  destruct (IncidentService.createIncident net _ w) as [[created|e] w1];
    cbn -[lit]; [|eauto 10].
  destruct (IncidentService.analyzeIncident net _ w1) as [[a|e] w2];
    cbn -[lit]; eauto 10.
Qed.

End CreateButton.
